(** * file-compressor: command construction and execution contract

    A shallow embedding of [src/index.ts] (the version that exports
    compressPDF, compressImageLossy, compressImageLossless, compressVideo
    and compressMP3), and the properties of its validation, command
    synthesis and result assembly.

    Conventions of the embedding.
    - JavaScript strings are [string]s; only ASCII letters change case.
      The two case-insensitive tests of the source compare against ASCII
      text ([.jpg], [.jpeg], [.png], [.mp3]) and no character outside
      [A-Z] maps to one of these characters, neither under the canonical
      form of a non-unicode [/i] regular expression nor under
      [toLowerCase].
    - A [number] that is interpolated into a command is an integer [Z]
      (the documented domain of crf, fps, width, height, quality and
      compression level), printed in decimal as [Number::toString] does
      below 10^21.
    - [compressedSizeKB] is a rational: a byte count divided by 1024 is
      exact in binary64.
    - An [async] function is a computation over a [world] (file system,
      spawned commands, console) that returns a value or throws.
    - [path.resolve], [path.dirname] and the external tools belong to the
      platform; they are parameters of the operations. *)

From Stdlib Require Import ZArith QArith Ascii String List Lia DecimalString.
From stdpp Require Import gmap strings.

Local Open Scope Z_scope.
Local Open Scope string_scope.

(** ** Characters and strings *)

Definition is_upper (c : ascii) : bool :=
  let n := nat_of_ascii c in ((65 <=? n) && (n <=? 90))%nat.

Definition is_lower (c : ascii) : bool :=
  let n := nat_of_ascii c in ((97 <=? n) && (n <=? 122))%nat.

Definition lower_char (c : ascii) : ascii :=
  if is_upper c then ascii_of_nat (nat_of_ascii c + 32) else c.

Definition upper_char (c : ascii) : ascii :=
  if is_lower c then ascii_of_nat (nat_of_ascii c - 32) else c.

(** [String.prototype.toLowerCase] *)
Fixpoint toLowerCase (s : string) : string :=
  match s with
  | EmptyString => EmptyString
  | String c s' => String (lower_char c) (toLowerCase s')
  end.

Fixpoint drop_chars (n : nat) (s : string) : string :=
  match n, s with
  | O, _ => s
  | S n', String _ s' => drop_chars n' s'
  | S _, EmptyString => EmptyString
  end.

(** [String.prototype.endsWith]: the last [length t] characters of [s]
    are compared with [t]; false when [t] is longer than [s]. *)
Definition endsWith (s t : string) : bool :=
  if (String.length t <=? String.length s)%nat
  then String.eqb (drop_chars (String.length s - String.length t) s) t
  else false.

(** [Number::toString] on an integer *)
Definition Number_toString (n : Z) : string :=
  NilZero.string_of_int (Z.to_int n).

(** A double quote and a line feed, as they occur in the templates. *)
Definition dq : string := String (ascii_of_nat 34) EmptyString.
Definition nl : string := String (ascii_of_nat 10) EmptyString.

(** The text ["${p}"] of a template literal. *)
Definition quoted (p : string) : string := dq +:+ p +:+ dq.

(** ** Regular expressions: the fragment used by [supportedFormats] *)

Inductive regex : Type :=
| REps
| RChar (c : ascii)
| RSeq (r1 r2 : regex)
| RAlt (r1 r2 : regex)
| REnd.

(** Character comparison; under the [i] flag both sides are put in
    canonical (upper case) form. *)
Definition char_matches (ignoreCase : bool) (p c : ascii) : bool :=
  if ignoreCase then Ascii.eqb (upper_char p) (upper_char c) else Ascii.eqb p c.

(** Backtracking matcher with a continuation for the rest of the pattern. *)
Fixpoint rmatch (ignoreCase : bool) (r : regex) (s : string)
    (k : string -> bool) : bool :=
  match r with
  | REps => k s
  | RChar p =>
      match s with
      | String c s' => if char_matches ignoreCase p c then k s' else false
      | EmptyString => false
      end
  | RSeq r1 r2 => rmatch ignoreCase r1 s (fun s' => rmatch ignoreCase r2 s' k)
  | RAlt r1 r2 => rmatch ignoreCase r1 s k || rmatch ignoreCase r2 s k
  | REnd =>
      match s with
      | EmptyString => k s
      | String _ _ => false
      end
  end.

(** [RegExp.prototype.test] without the [g] and [y] flags: a match is
    looked for at every start position, from the left. *)
Fixpoint regex_test (ignoreCase : bool) (r : regex) (s : string) : bool :=
  rmatch ignoreCase r s (fun _ => true)
  || match s with
     | String _ s' => regex_test ignoreCase r s'
     | EmptyString => false
     end.

(** A literal word of the pattern. *)
Fixpoint RLit (w : string) : regex :=
  match w with
  | EmptyString => REps
  | String c w' => RSeq (RChar c) (RLit w')
  end.

(** [/\.(jpg|jpeg|png)$/] *)
Definition supportedFormats_re : regex :=
  RSeq (RChar ".")
       (RSeq (RAlt (RLit "jpg") (RAlt (RLit "jpeg") (RLit "png"))) REnd).

(** [supportedFormats.test(p)], with the [i] flag of the literal. *)
Definition supportedFormats_test (p : string) : bool :=
  regex_test true supportedFormats_re p.

(** ** Data model *)

(** The three string enums; [value] is the string of a member. *)
Module SupportedCodecs.
Inductive t : Type := LIBX264 | LIBX265 | VP9 | GIF.
Definition value (c : t) : string :=
  match c with
  | LIBX264 => "libx264" | LIBX265 => "libx265" | VP9 => "vp9" | GIF => "gif"
  end.
(** [===] on members *)
Definition eqb (a b : t) : bool := String.eqb (value a) (value b).
End SupportedCodecs.

Module SoundBitRate.
Inductive t : Type := LOW | MEDIUM | HIGH | VERY_HIGH.
Definition value (b : t) : string :=
  match b with
  | LOW => "64k" | MEDIUM => "128k" | HIGH => "192k" | VERY_HIGH => "320k"
  end.
End SoundBitRate.

Module VideoPresets.
Inductive t : Type :=
| ULTRAFAST | SUPERFAST | VERYFAST | FASTER | FAST | MEDIUM | SLOW | SLOWER
| VERYSLOW.
Definition value (p : t) : string :=
  match p with
  | ULTRAFAST => "ultrafast" | SUPERFAST => "superfast"
  | VERYFAST => "veryfast" | FASTER => "faster" | FAST => "fast"
  | MEDIUM => "medium" | SLOW => "slow" | SLOWER => "slower"
  | VERYSLOW => "veryslow"
  end.
End VideoPresets.

Record CompressResult : Type := {
  outputPath : string;
  compressedSizeKB : Q
}.

(** Optional fields are [option]s: [None] is [undefined]. *)
Module Scale.
Record t : Type := { width : option Z; height : option Z }.
End Scale.

Module VideoOptions.
Record t : Type := {
  codec : option SupportedCodecs.t;
  crf : option Z;
  preset : option VideoPresets.t;
  fps : option Z;
  scale : option Scale.t
}.
(** [{}], the default argument *)
Definition empty : t :=
  {| codec := None; crf := None; preset := None; fps := None; scale := None |}.
End VideoOptions.

Module AudioOptions.
Record t : Type := {
  bitrate : option SoundBitRate.t;
  quality : option Z;
  mono : option bool
}.
Definition empty : t := {| bitrate := None; quality := None; mono := None |}.
End AudioOptions.

(** [x || d] on an optional number: 0 and [undefined] are falsy. *)
Definition num_or (x : option Z) (d : Z) : Z :=
  match x with
  | Some n => if Z.eqb n 0 then d else n
  | None => d
  end.

(** [x ?? d]: only [undefined] is replaced. *)
Definition nullish {A : Type} (x : option A) (d : A) : A :=
  match x with
  | Some a => a
  | None => d
  end.

(** Truthiness of an optional number and of an optional boolean. *)
Definition num_truthy (x : option Z) : bool :=
  match x with
  | Some n => negb (Z.eqb n 0)
  | None => false
  end.

Definition bool_truthy (x : option bool) : bool := nullish x false.

(** ** Errors *)

Inductive errno : Type := ENOENT | EACCES.

(** [FsError] is the I/O error of the [fs] API (rejected [fs.access] or
    [fs.stat]), [ExecError] the rejection of [execPromise], and [JsError]
    an error made by the operations with [new Error(msg)]. *)
Inductive error : Type :=
| FsError (code : errno) (syscall : string) (path : string)
| ExecError (msg : string)
| JsError (msg : string).

Definition errno_text (c : errno) : string :=
  match c with
  | ENOENT => "ENOENT: no such file or directory"
  | EACCES => "EACCES: permission denied"
  end.

(** [error.message] *)
Definition message (e : error) : string :=
  match e with
  | FsError c call p => errno_text c +:+ ", " +:+ call +:+ " '" +:+ p +:+ "'"
  | ExecError msg => msg
  | JsError msg => msg
  end.

(** ** The world of an operation *)

(** What the calling process sees of a file or directory. *)
Record node : Type := {
  n_readable : bool;
  n_writable : bool;
  n_size : Z
}.

Record world : Type := {
  w_fs : gmap string node;
  w_spawned : list string;
  w_console : list (string * error)
}.

Inductive outcome (A : Type) : Type :=
| Returned (a : A)
| Thrown (e : error).
Arguments Returned {A} a.
Arguments Thrown {A} e.

(** An awaited computation. *)
Definition M (A : Type) : Type := world -> outcome A * world.

Definition ret {A : Type} (a : A) : M A := fun w => (Returned a, w).

Definition throw {A : Type} (e : error) : M A := fun w => (Thrown e, w).

Definition bind {A B : Type} (m : M A) (k : A -> M B) : M B :=
  fun w =>
    match m w with
    | (Returned a, w') => k a w'
    | (Thrown e, w') => (Thrown e, w')
    end.

(** [try { m } catch (error) { h error }] *)
Definition try_catch {A : Type} (m : M A) (h : error -> M A) : M A :=
  fun w =>
    match m w with
    | (Returned a, w') => (Returned a, w')
    | (Thrown e, w') => h e w'
    end.

Declare Scope js_scope.
Delimit Scope js_scope with js.
Notation "x <- m ;; k" := (bind m (fun x => k))
  (at level 100, m at next level, right associativity) : js_scope.
Notation "m ;;; k" := (bind m (fun _ => k))
  (at level 100, right associativity) : js_scope.
Local Open Scope js_scope.

Inductive access_mode : Type := F_OK | R_OK | W_OK.

Definition mode_allows (mode : access_mode) (n : node) : bool :=
  match mode with
  | F_OK => true
  | R_OK => n_readable n
  | W_OK => n_writable n
  end.

(** [fs.access(path, mode)]; the mode defaults to [F_OK]. *)
Definition fs_access (p : string) (mode : access_mode) : M unit :=
  fun w =>
    match w_fs w !! p with
    | None => (Thrown (FsError ENOENT "access" p), w)
    | Some n =>
        if mode_allows mode n then (Returned tt, w)
        else (Thrown (FsError EACCES "access" p), w)
    end.

(** [(await fs.stat(path)).size] *)
Definition fs_stat_size (p : string) : M Z :=
  fun w =>
    match w_fs w !! p with
    | None => (Thrown (FsError ENOENT "stat" p), w)
    | Some n => (Returned (n_size n), w)
    end.

(** [console.error(label, error)] *)
Definition console_error (label : string) (e : error) : M unit :=
  fun w =>
    (Returned tt,
     {| w_fs := w_fs w; w_spawned := w_spawned w;
        w_console := w_console w ++ [(label, e)] |}).

(** [size / 1024] *)
Definition bytes_to_KB (size : Z) : Q := size # 1024.

(** ** The operations *)

Definition indent8 : string := "        ".
Definition indent6 : string := "      ".

(** [options.codec || SupportedCodecs.LIBX264]: every member is a
    non-empty string, hence truthy. *)
Definition video_codec (options : VideoOptions.t) : SupportedCodecs.t :=
  nullish (VideoOptions.codec options) SupportedCodecs.LIBX264.

(** [options.crf ?? (codec === SupportedCodecs.VP9 ? 30 : 28)] *)
Definition video_crf (options : VideoOptions.t) : Z :=
  nullish (VideoOptions.crf options)
          (if SupportedCodecs.eqb (video_codec options) SupportedCodecs.VP9
           then 30 else 28).

(** [options.preset || VideoPresets.MEDIUM] *)
Definition video_preset (options : VideoOptions.t) : VideoPresets.t :=
  nullish (VideoOptions.preset options) VideoPresets.MEDIUM.

(** [options.fps ? `-r ${options.fps}` : ''] *)
Definition video_fps (options : VideoOptions.t) : string :=
  if num_truthy (VideoOptions.fps options)
  then "-r " +:+ Number_toString (nullish (VideoOptions.fps options) 0)
  else "".

(** [options.scale
       ? `-vf scale=${options.scale.width || -1}:${options.scale.height || -1}`
       : '']; an object is truthy whatever its fields. *)
Definition video_scale (options : VideoOptions.t) : string :=
  match VideoOptions.scale options with
  | Some sc =>
      "-vf scale=" +:+ Number_toString (num_or (Scale.width sc) (-1)) +:+ ":"
      +:+ Number_toString (num_or (Scale.height sc) (-1))
  | None => ""
  end.

(** The [if]/[else if] chain of compressVideo that assigns
    [ffmpegCommand]. A backslash at the end of a template line continues
    the line: neither it nor the line feed is part of the string. *)
Definition video_ffmpegCommand (resolvedInputPath resolvedOutputPath : string)
    (options : VideoOptions.t) : error + string :=
  let codec := video_codec options in
  let crf := video_crf options in
  let preset := video_preset options in
  let fps := video_fps options in
  let scale := video_scale options in
  if SupportedCodecs.eqb codec SupportedCodecs.LIBX264
     || SupportedCodecs.eqb codec SupportedCodecs.LIBX265
  then
    inr (nl +:+ indent8 +:+ "ffmpeg -i " +:+ dq +:+ resolvedInputPath +:+ dq +:+ " "
         +:+ indent8 +:+ "-c:v " +:+ SupportedCodecs.value codec
         +:+ " -crf " +:+ Number_toString crf
         +:+ " -preset " +:+ VideoPresets.value preset +:+ " "
         +:+ indent8 +:+ "-c:a aac -b:a 128k "
         +:+ indent8 +:+ fps +:+ " " +:+ scale +:+ " "
         +:+ indent8 +:+ "-movflags +faststart "
         +:+ indent8 +:+ dq +:+ resolvedOutputPath +:+ dq +:+ nl +:+ indent6)
  else if SupportedCodecs.eqb codec SupportedCodecs.VP9
  then
    inr (nl +:+ indent8 +:+ "ffmpeg -i " +:+ dq +:+ resolvedInputPath +:+ dq +:+ " "
         +:+ indent8 +:+ "-c:v libvpx-vp9 -crf " +:+ Number_toString crf
         +:+ " -b:v 0 "
         +:+ indent8 +:+ "-c:a libopus -b:a 128k "
         +:+ indent8 +:+ fps +:+ " " +:+ scale +:+ " "
         +:+ indent8 +:+ dq +:+ resolvedOutputPath +:+ dq +:+ nl +:+ indent6)
  else if SupportedCodecs.eqb codec SupportedCodecs.GIF
  then
    inr (nl +:+ indent8 +:+ "ffmpeg -i " +:+ dq +:+ resolvedInputPath +:+ dq +:+ " "
         +:+ indent8 +:+ "-vf " +:+ dq
         +:+ "fps=15,scale=640:-1:flags=lanczos,split[s0][s1];[s0]palettegen[p];[s1][p]paletteuse"
         +:+ dq +:+ " "
         +:+ indent8 +:+ "-loop 0 "
         +:+ indent8 +:+ dq +:+ resolvedOutputPath +:+ dq +:+ nl +:+ indent6)
  else inl (JsError "Unsupported codec").

(** The Ghostscript command of compressPDF. *)
Definition gsCommand (resolvedInputPath resolvedOutputPath : string) : string :=
  "gs -sDEVICE=pdfwrite -dCompatibilityLevel=1.4 -dPDFSETTINGS=/screen -dNOPAUSE -dQUIET -dBATCH -sOutputFile="
  +:+ dq +:+ resolvedOutputPath +:+ dq +:+ " " +:+ dq +:+ resolvedInputPath +:+ dq.

(** The ImageMagick command of compressImageLossy. *)
Definition lossy_magickCommand (resolvedInputPath resolvedOutputPath : string)
    (quality : Z) : string :=
  "magick " +:+ dq +:+ resolvedInputPath +:+ dq +:+ " -quality "
  +:+ Number_toString quality +:+ " -strip " +:+ dq +:+ resolvedOutputPath +:+ dq.

(** The ImageMagick command of compressImageLossless. *)
Definition lossless_magickCommand (resolvedInputPath resolvedOutputPath : string)
    (compressionLevel : Z) : string :=
  "magick " +:+ dq +:+ resolvedInputPath +:+ dq
  +:+ " -strip -define png:compression-level=" +:+ Number_toString compressionLevel
  +:+ " " +:+ dq +:+ resolvedOutputPath +:+ dq.

(** The FFmpeg command of compressMP3, with its three defaulted options:
    [options.bitrate || '128k'], [options.quality ?? 4] and
    [options.mono ? '-ac 1' : '']. *)
Definition mp3_ffmpegCommand (resolvedInputPath resolvedOutputPath : string)
    (options : AudioOptions.t) : string :=
  let bitrate :=
    match AudioOptions.bitrate options with
    | Some b => SoundBitRate.value b
    | None => "128k"
    end in
  let quality := nullish (AudioOptions.quality options) 4 in
  let mono := if bool_truthy (AudioOptions.mono options) then "-ac 1" else "" in
  "ffmpeg -i " +:+ dq +:+ resolvedInputPath +:+ dq +:+ " -c:a libmp3lame "
  +:+ (match AudioOptions.bitrate options with
       | Some _ => "-b:a " +:+ bitrate
       | None => "-q:a " +:+ Number_toString quality
       end)
  +:+ " " +:+ mono +:+ " -y " +:+ dq +:+ resolvedOutputPath +:+ dq.

Definition of_sum {A : Type} (r : error + A) : M A :=
  match r with
  | inl e => throw e
  | inr a => ret a
  end.

Section Operations.

(** [path.resolve] and [path.dirname] of the platform, and the effect of
    running a command line on the file system: [None] when the child
    process exits with status 0, otherwise the message of the rejection. *)
Variable resolve : string -> string.
Variable dirname : string -> string.
Variable run_tool : string -> gmap string node -> option string * gmap string node.

(** [execPromise(command)] *)
Definition execPromise (command : string) : M unit :=
  fun w =>
    let (status, fs') := run_tool command (w_fs w) in
    let w' := {| w_fs := fs'; w_spawned := w_spawned w ++ [command];
                 w_console := w_console w |} in
    match status with
    | None => (Returned tt, w')
    | Some msg => (Thrown (ExecError msg), w')
    end.

Definition compressPDF (inputPath outputPath : string) : M CompressResult :=
  try_catch
    (let resolvedInputPath := resolve inputPath in
     let resolvedOutputPath := resolve outputPath in
     execPromise (gsCommand resolvedInputPath resolvedOutputPath) ;;;
     compressedSize <- fs_stat_size resolvedOutputPath ;;
     ret {| outputPath := resolvedOutputPath;
            compressedSizeKB := bytes_to_KB compressedSize |})
    (fun error =>
       console_error "Error compressing PDF with Ghostscript:" error ;;;
       throw error).

(** The validation shared, line for line, by the two image operations. *)
Definition validate_image (resolvedInputPath outputDir : string) : M unit :=
  (if negb (supportedFormats_test resolvedInputPath)
   then throw (JsError "Unsupported file format. Use JPG, JPEG, or PNG.")
   else ret tt) ;;;
  fs_access resolvedInputPath R_OK ;;;
  fs_access outputDir W_OK.

(** Their inner [try]/[catch] around the ImageMagick process. *)
Definition run_magick (magickCommand : string) : M unit :=
  try_catch
    (execPromise magickCommand)
    (fun magickError =>
       console_error "ImageMagick command failed:" magickError ;;;
       throw (JsError ("Failed to compress image: " +:+ message magickError))).

(** [quality] is [None] when the argument is left out (default 75). *)
Definition compressImageLossy (inputPath outputPath : string)
    (quality : option Z) : M CompressResult :=
  let quality := nullish quality 75 in
  try_catch
    (let resolvedInputPath := resolve inputPath in
     let resolvedOutputPath := resolve outputPath in
     let outputDir := dirname resolvedOutputPath in
     validate_image resolvedInputPath outputDir ;;;
     run_magick (lossy_magickCommand resolvedInputPath resolvedOutputPath quality) ;;;
     compressedSize <- fs_stat_size resolvedOutputPath ;;
     ret {| outputPath := resolvedOutputPath;
            compressedSizeKB := bytes_to_KB compressedSize |})
    (fun error =>
       console_error "Error compressing image with ImageMagick:" error ;;;
       throw error).

Definition compressImageLossless (inputPath outputPath : string)
    (compressionLevel : option Z) : M CompressResult :=
  let compressionLevel := nullish compressionLevel 75 in
  try_catch
    (let resolvedInputPath := resolve inputPath in
     let resolvedOutputPath := resolve outputPath in
     let outputDir := dirname resolvedOutputPath in
     validate_image resolvedInputPath outputDir ;;;
     run_magick (lossless_magickCommand resolvedInputPath resolvedOutputPath
                                        compressionLevel) ;;;
     compressedSize <- fs_stat_size resolvedOutputPath ;;
     ret {| outputPath := resolvedOutputPath;
            compressedSizeKB := bytes_to_KB compressedSize |})
    (fun error =>
       console_error "Error compressing image with ImageMagick:" error ;;;
       throw error).

Definition compressVideo (inputPath outputPath : string)
    (options : VideoOptions.t) : M CompressResult :=
  let resolvedInputPath := resolve inputPath in
  let resolvedOutputPath := resolve outputPath in
  fs_access resolvedInputPath F_OK ;;;
  try_catch
    (ffmpegCommand <-
       of_sum (video_ffmpegCommand resolvedInputPath resolvedOutputPath options) ;;
     execPromise ffmpegCommand ;;;
     size <- fs_stat_size resolvedOutputPath ;;
     ret {| outputPath := resolvedOutputPath;
            compressedSizeKB := bytes_to_KB size |})
    (fun error =>
       throw (JsError ("Video compression failed: " +:+ message error))).

Definition compressMP3 (inputPath outputPath : string)
    (options : AudioOptions.t) : M CompressResult :=
  let resolvedInputPath := resolve inputPath in
  let resolvedOutputPath := resolve outputPath in
  fs_access resolvedInputPath F_OK ;;;
  (if negb (endsWith (toLowerCase resolvedInputPath) ".mp3")
   then throw (JsError "Input file must be an MP3.")
   else ret tt) ;;;
  try_catch
    (execPromise (mp3_ffmpegCommand resolvedInputPath resolvedOutputPath options) ;;;
     size <- fs_stat_size resolvedOutputPath ;;
     ret {| outputPath := resolvedOutputPath;
            compressedSizeKB := bytes_to_KB size |})
    (fun error =>
       throw (JsError ("MP3 compression failed: " +:+ message error))).

End Operations.

(** ** A POSIX platform, to run the operations on concrete inputs *)

Fixpoint split_slash (s : string) : list string :=
  match s with
  | EmptyString => [EmptyString]
  | String c s' =>
      if Ascii.eqb c "/" then EmptyString :: split_slash s'
      else match split_slash s' with
           | seg :: rest => String c seg :: rest
           | [] => [String c EmptyString]
           end
  end.

Definition normalize_step (stack : list string) (seg : string) : list string :=
  if String.eqb seg "" || String.eqb seg "." then stack
  else if String.eqb seg ".." then removelast stack
  else stack ++ [seg].

Definition join_slash (segs : list string) : string :=
  fold_right (fun seg acc => "/" +:+ seg +:+ acc) "" segs.

Definition normalize_abs (p : string) : list string :=
  fold_left normalize_step (split_slash p) [].

(** [path.posix.resolve(p)] in the working directory [cwd] (absolute). *)
Definition posix_resolve (cwd p : string) : string :=
  let full := if String.prefix "/" p then p else cwd +:+ "/" +:+ p in
  match normalize_abs full with
  | [] => "/"
  | segs => join_slash segs
  end.

(** [path.posix.dirname] on a resolved path. *)
Definition posix_dirname (p : string) : string :=
  match removelast (normalize_abs p) with
  | [] => "/"
  | segs => join_slash segs
  end.

(** A tool that exits with status 0 after writing [size] bytes to [out],
    and one that exits with a failure and writes nothing. *)
Definition tool_writes (out : string) (size : Z)
    (command : string) (fs : gmap string node) : option string * gmap string node :=
  (None, <[out := {| n_readable := true; n_writable := true; n_size := size |}]> fs).

Definition tool_fails (msg : string)
    (command : string) (fs : gmap string node) : option string * gmap string node :=
  (Some msg, fs).

Definition plain_file (size : Z) : node :=
  {| n_readable := true; n_writable := true; n_size := size |}.

Definition unreadable_file (size : Z) : node :=
  {| n_readable := false; n_writable := false; n_size := size |}.

Definition world_of (fs : gmap string node) : world :=
  {| w_fs := fs; w_spawned := []; w_console := [] |}.

(** ** What the claims speak about *)

(** The path [p] has the extension [ext], letter case aside. *)
Definition has_extension (p ext : string) : Prop :=
  exists stem suffix, p = stem +:+ suffix /\ toLowerCase suffix = ext.

Definition supported_image_extension (p : string) : Prop :=
  has_extension p ".jpg" \/ has_extension p ".jpeg" \/ has_extension p ".png".

(** The message of the format check of the image operations. *)
Definition unsupported_format : error :=
  JsError "Unsupported file format. Use JPG, JPEG, or PNG.".

Definition not_an_mp3 : error := JsError "Input file must be an MP3.".

(** [needle] occurs in [s]. *)
Fixpoint contains (needle s : string) : bool :=
  String.prefix needle s
  || match s with
     | String _ s' => contains needle s'
     | EmptyString => false
     end.

(** The commands spawned so far once [m] has run in [w], and its outcome. *)
Definition spawned_by {A : Type} (m : M A) (w : world) : list string :=
  w_spawned (snd (m w)).

Definition result_of {A : Type} (m : M A) (w : world) : outcome A := fst (m w).

(** The five exported operations, each with its arguments other than the
    two paths. *)
Inductive operation : Type :=
| PDF
| ImageLossy (quality : option Z)
| ImageLossless (compressionLevel : option Z)
| Video (options : VideoOptions.t)
| MP3 (options : AudioOptions.t).

Definition run_operation (resolve dirname : string -> string)
    (run_tool : string -> gmap string node -> option string * gmap string node)
    (op : operation) (inputPath outputPath : string) : M CompressResult :=
  match op with
  | PDF => compressPDF resolve run_tool inputPath outputPath
  | ImageLossy q => compressImageLossy resolve dirname run_tool inputPath outputPath q
  | ImageLossless l =>
      compressImageLossless resolve dirname run_tool inputPath outputPath l
  | Video options => compressVideo resolve run_tool inputPath outputPath options
  | MP3 options => compressMP3 resolve run_tool inputPath outputPath options
  end.

(** The command line an operation builds from the two resolved paths. *)
Definition synthesized_command (op : operation)
    (resolvedInputPath resolvedOutputPath : string) : error + string :=
  match op with
  | PDF => inr (gsCommand resolvedInputPath resolvedOutputPath)
  | ImageLossy q =>
      inr (lossy_magickCommand resolvedInputPath resolvedOutputPath (nullish q 75))
  | ImageLossless l =>
      inr (lossless_magickCommand resolvedInputPath resolvedOutputPath (nullish l 75))
  | Video options => video_ffmpegCommand resolvedInputPath resolvedOutputPath options
  | MP3 options => inr (mp3_ffmpegCommand resolvedInputPath resolvedOutputPath options)
  end.

(** What every video command starts and ends with, around the two quoted
    paths and the flags between them. *)
Definition video_head : string := nl +:+ indent8 +:+ "ffmpeg -i ".
Definition video_tail : string := nl +:+ indent6.

(** The filter graph of the GIF branch. *)
Definition gif_filter : string :=
  "fps=15,scale=640:-1:flags=lanczos,split[s0][s1];[s0]palettegen[p];[s1][p]paletteuse".

(** The rate flag of an MP3 command as the claim words it. *)
Definition rate_flag (options : AudioOptions.t) : string :=
  match AudioOptions.bitrate options with
  | Some b => "-b:a " +:+ SoundBitRate.value b
  | None =>
      "-q:a " +:+ match AudioOptions.quality options with
                  | Some q => Number_toString q
                  | None => "4"
                  end
  end.

(** The text of one dimension of a scale filter. *)
Definition scale_dim (d : option Z) : string :=
  match d with
  | None => "-1"
  | Some n => if Z.eqb n 0 then "-1" else Number_toString n
  end.

(** The last segment of a path, and the names that [path.resolve] keeps
    as they are. *)
Definition last_segment (p : string) : string := List.last (split_slash p) "".

Definition ordinary_name (seg : string) : bool :=
  negb (String.eqb seg "" || String.eqb seg "." || String.eqb seg "..").

(** The segments written with a slash after each. *)
Fixpoint slash_after (segs : list string) : string :=
  match segs with
  | [] => ""
  | seg :: rest => seg +:+ "/" +:+ slash_after rest
  end.

Fixpoint no_slash (s : string) : bool :=
  match s with
  | EmptyString => true
  | String c s' => negb (Ascii.eqb c "/") && no_slash s'
  end.

(** Reading a quoted token: the text after an opening double quote, up to
    the next double quote, and what follows that one. *)
Fixpoint until_quote (s : string) : option (string * string) :=
  match s with
  | EmptyString => None
  | String c s' =>
      if Ascii.eqb c (ascii_of_nat 34) then Some (EmptyString, s')
      else match until_quote s' with
           | Some (token, rest) => Some (String c token, rest)
           | None => None
           end
  end.

Definition read_quoted (s : string) : option (string * string) :=
  match s with
  | String c s' => if Ascii.eqb c (ascii_of_nat 34) then until_quote s' else None
  | EmptyString => None
  end.

Fixpoint no_quote (s : string) : bool :=
  match s with
  | EmptyString => true
  | String c s' => negb (Ascii.eqb c (ascii_of_nat 34)) && no_quote s'
  end.

(** All 256 characters, and the words without an upper case letter. *)
Definition all_ascii : list ascii := map ascii_of_nat (seq 0 256).

Fixpoint no_upper (w : string) : bool :=
  match w with
  | EmptyString => true
  | String c w' => negb (is_upper c) && no_upper w'
  end.

(** The working directory and the GIF options of the concrete runs. *)
Definition home_resolve : string -> string := posix_resolve "/home/u".

Definition gif_options (crf : option Z) (sc : Scale.t) : VideoOptions.t :=
  {| VideoOptions.codec := Some SupportedCodecs.GIF; VideoOptions.crf := crf;
     VideoOptions.preset := None; VideoOptions.fps := None;
     VideoOptions.scale := Some sc |}.

(** ** The stages of an operation *)

(** Whether [fs.access(p, mode)] succeeds in a file system. *)
Definition accessible (mode : access_mode) (fs : gmap string node) (p : string) : bool :=
  match fs !! p with
  | Some n => mode_allows mode n
  | None => false
  end.

(** What an operation asks of the resolved paths before it starts its
    tool. *)
Definition validated (dirname : string -> string) (op : operation)
    (rin rout : string) (fs : gmap string node) : bool :=
  match op with
  | PDF => true
  | ImageLossy _ | ImageLossless _ =>
      supportedFormats_test rin && accessible R_OK fs rin
      && accessible W_OK fs (dirname rout)
  | Video _ => accessible F_OK fs rin
  | MP3 _ => accessible F_OK fs rin && endsWith (toLowerCase rin) ".mp3"
  end.

(** The error an operation throws when its tool fails with [msg], and
    when the output is missing after the tool has exited with status 0. *)
Definition tool_failure (op : operation) (msg : string) : error :=
  match op with
  | PDF => ExecError msg
  | ImageLossy _ | ImageLossless _ => JsError ("Failed to compress image: " +:+ msg)
  | Video _ => JsError ("Video compression failed: " +:+ msg)
  | MP3 _ => JsError ("MP3 compression failed: " +:+ msg)
  end.

Definition stat_failure (op : operation) (rout : string) : error :=
  match op with
  | PDF | ImageLossy _ | ImageLossless _ => FsError ENOENT "stat" rout
  | Video _ =>
      JsError ("Video compression failed: " +:+ message (FsError ENOENT "stat" rout))
  | MP3 _ =>
      JsError ("MP3 compression failed: " +:+ message (FsError ENOENT "stat" rout))
  end.

(** The label under which an operation writes a thrown error to the
    console, if it writes any. *)
Definition console_label (op : operation) : option string :=
  match op with
  | PDF => Some "Error compressing PDF with Ghostscript:"
  | ImageLossy _ | ImageLossless _ => Some "Error compressing image with ImageMagick:"
  | Video _ | MP3 _ => None
  end.

(** Video options with every default written out, and with one field
    replaced. *)
Definition with_defaults (o : VideoOptions.t) : VideoOptions.t :=
  let c := match VideoOptions.codec o with
           | Some c => c
           | None => SupportedCodecs.LIBX264
           end in
  {| VideoOptions.codec := Some c;
     VideoOptions.crf :=
       Some match VideoOptions.crf o with
            | Some q => q
            | None => match c with SupportedCodecs.VP9 => 30 | _ => 28 end
            end;
     VideoOptions.preset :=
       Some match VideoOptions.preset o with
            | Some p => p
            | None => VideoPresets.MEDIUM
            end;
     VideoOptions.fps := VideoOptions.fps o;
     VideoOptions.scale := VideoOptions.scale o |}.

Definition set_preset (p : option VideoPresets.t) (o : VideoOptions.t) : VideoOptions.t :=
  {| VideoOptions.codec := VideoOptions.codec o; VideoOptions.crf := VideoOptions.crf o;
     VideoOptions.preset := p; VideoOptions.fps := VideoOptions.fps o;
     VideoOptions.scale := VideoOptions.scale o |}.

Definition set_fps (f : option Z) (o : VideoOptions.t) : VideoOptions.t :=
  {| VideoOptions.codec := VideoOptions.codec o; VideoOptions.crf := VideoOptions.crf o;
     VideoOptions.preset := VideoOptions.preset o; VideoOptions.fps := f;
     VideoOptions.scale := VideoOptions.scale o |}.

Definition set_quality (q : option Z) (o : AudioOptions.t) : AudioOptions.t :=
  {| AudioOptions.bitrate := AudioOptions.bitrate o; AudioOptions.quality := q;
     AudioOptions.mono := AudioOptions.mono o |}.

Definition set_mono (m : option bool) (o : AudioOptions.t) : AudioOptions.t :=
  {| AudioOptions.bitrate := AudioOptions.bitrate o;
     AudioOptions.quality := AudioOptions.quality o; AudioOptions.mono := m |}.

(** ** The quoted tokens of a command line *)





(** * Properties *)

Example posix_resolve_samples :
  map (posix_resolve "/home/u")
      ["input.pdf"; "/tmp/a b.png"; "../x/./y.mp3"; "a.png/"; ""; "/.."]
  = ["/home/u/input.pdf"; "/tmp/a b.png"; "/home/x/y.mp3"; "/home/u/a.png";
     "/home/u"; "/"].
Proof. reflexivity. Qed.

Example posix_dirname_samples :
  map posix_dirname ["/home/u/out.jpg"; "/out.jpg"; "/"] = ["/home/u"; "/"; "/"].
Proof. reflexivity. Qed.

Example supportedFormats_samples :
  map supportedFormats_test
      ["/w/a.jpg"; "/w/a.JPeG"; "/w/a.PNG"; "/w/.png"; "/w/a.gif"; "/w/a.png.bak";
       "/w/apng"; "/w/a.jpg "; ""]
  = [true; true; true; true; false; false; false; false; false].
Proof. reflexivity. Qed.

Example endsWith_samples :
  map (fun s => endsWith (toLowerCase s) ".mp3")
      ["/w/a.mp3"; "/w/a.MP3"; "/w/a.Mp3"; ".mp3"; "mp3"; "/w/a.mp3x"; "/w/a.wav"]
  = [true; true; true; true; false; false; false].
Proof. reflexivity. Qed.

Example Number_toString_samples :
  map Number_toString [0; 28; -1; 1280] = ["0"; "28"; "-1"; "1280"].
Proof. reflexivity. Qed.

(** ** Strings *)

#[local] Arguments String.append !s1 s2 : simpl nomatch.

Lemma append_assoc' (a b c : string) : (a +:+ b) +:+ c = a +:+ b +:+ c.
Proof. induction a as [|x a IH]; simpl; [reflexivity | now rewrite IH]. Qed.

Lemma append_nil_r (a : string) : a +:+ "" = a.
Proof. induction a as [|x a IH]; simpl; [reflexivity | now rewrite IH]. Qed.

Lemma length_append (a b : string) :
  String.length (a +:+ b) = (String.length a + String.length b)%nat.
Proof. induction a as [|x a IH]; simpl; [reflexivity | now rewrite IH]. Qed.

Lemma toLowerCase_append (a b : string) :
  toLowerCase (a +:+ b) = toLowerCase a +:+ toLowerCase b.
Proof. induction a as [|x a IH]; simpl; [reflexivity | now rewrite IH]. Qed.

Lemma drop_chars_append (a b : string) : drop_chars (String.length a) (a +:+ b) = b.
Proof. induction a as [|x a IH]; simpl; [reflexivity | exact IH]. Qed.

Lemma drop_chars_split (n : nat) (s : string) :
  exists stem, s = stem +:+ drop_chars n s.
Proof.
  revert s. induction n as [|n IH]; intros s.
  - exists "". reflexivity.
  - destruct s as [|c s]; simpl.
    + exists "". reflexivity.
    + destruct (IH s) as [stem Hs]. exists (String c stem). simpl. now rewrite <- Hs.
Qed.

(** [endsWith] decides that [t] is a suffix of [s]. *)
Lemma endsWith_suffix (s t : string) :
  endsWith s t = true <-> exists stem, s = stem +:+ t.
Proof.
  unfold endsWith. split.
  - destruct (String.length t <=? String.length s)%nat; [|discriminate].
    intros H. apply String.eqb_eq in H.
    destruct (drop_chars_split (String.length s - String.length t) s) as [stem Hs].
    exists stem. now rewrite <- H.
  - intros [stem ->]. rewrite length_append.
    replace (String.length t <=? String.length stem + String.length t)%nat with true
      by (symmetry; apply Nat.leb_le; lia).
    replace (String.length stem + String.length t - String.length t)%nat
      with (String.length stem) by lia.
    rewrite drop_chars_append. apply String.eqb_refl.
Qed.

(** The test of compressMP3 says that the path has the extension. *)
Lemma endsWith_lower_extension (p ext : string) :
  endsWith (toLowerCase p) ext = true <-> has_extension p ext.
Proof.
  rewrite endsWith_suffix. split.
  - intros [stem Hs].
    destruct (drop_chars_split (String.length stem) p) as [st Hp].
    exists st, (drop_chars (String.length stem) p). split; [exact Hp|].
    clear Hp. revert p Hs. induction stem as [|c stem IH]; intros p Hs; simpl in *.
    + exact Hs.
    + destruct p as [|d p]; simpl in *; [discriminate|].
      injection Hs as _ Hs. now apply IH.
  - intros (stem & suffix & -> & Hl). exists (toLowerCase stem).
    now rewrite toLowerCase_append, Hl.
Qed.

(** ** Characters: a property checked on all 256 *)

Lemma forall_ascii (P : ascii -> bool) :
  forallb P all_ascii = true -> forall c, P c = true.
Proof.
  intros H c. rewrite forallb_forall in H. apply H.
  rewrite <- (ascii_nat_embedding c). apply in_map, in_seq.
  pose proof (nat_ascii_bounded c). lia.
Qed.

(** Under the [i] flag a pattern character that is not an upper case letter
    matches exactly the characters whose lower case it is. *)
Lemma char_matches_lower (p c : ascii) :
  is_upper p = false -> char_matches true p c = Ascii.eqb (lower_char c) p.
Proof.
  intros Hp.
  assert (H : (is_upper p
               || Bool.eqb (char_matches true p c) (Ascii.eqb (lower_char c) p)) = true).
  { revert c. apply forall_ascii. revert p Hp.
    assert (G : forall p,
      (fun p => forallb (fun c => is_upper p
               || Bool.eqb (char_matches true p c) (Ascii.eqb (lower_char c) p))
                        all_ascii) p = true)
      by (apply forall_ascii; vm_compute; reflexivity).
    intros p _. apply G. }
  rewrite Hp in H. simpl in H. now apply Bool.eqb_prop in H.
Qed.

(** ** The regular expression of the image operations *)

(** A literal word without upper case letters consumes a prefix whose
    lower case is the word. *)
Lemma rmatch_RLit (w s : string) (k : string -> bool) :
  no_upper w = true ->
  (rmatch true (RLit w) s k = true
   <-> exists pre rest, s = pre +:+ rest /\ toLowerCase pre = w /\ k rest = true).
Proof.
  revert s k. induction w as [|p w IH]; intros s k Hw;
    cbn [RLit rmatch no_upper] in *.
  - split.
    + intros H. exists "", s. auto.
    + intros (pre & rest & -> & Hl & Hk). destruct pre; [exact Hk | discriminate].
  - apply andb_true_iff in Hw as [Hp Hw]. apply negb_true_iff in Hp.
    destruct s as [|c s].
    + split; [discriminate|].
      intros (pre & rest & Hs & Hl & _). destruct pre; simpl in *; discriminate.
    + rewrite (char_matches_lower p c Hp).
      destruct (Ascii.eqb_spec (lower_char c) p) as [He|Hne].
      * rewrite (IH s k Hw). split.
        -- intros (pre & rest & -> & Hl & Hk). exists (String c pre), rest.
           simpl. now rewrite He, Hl.
        -- intros (pre & rest & Hs & Hl & Hk). destruct pre as [|d pre]; [discriminate|].
           simpl in *. injection Hs as -> ->. injection Hl as _ Hl.
           exists pre, rest. auto.
      * split; [discriminate|].
        intros (pre & rest & Hs & Hl & _). destruct pre as [|d pre]; [discriminate|].
        simpl in *. injection Hs as -> ->. injection Hl as Hd _. contradiction.
Qed.

(** A word followed by [$] matches the strings whose lower case is the word. *)
Lemma rmatch_RLit_end (w s : string) :
  no_upper w = true ->
  (rmatch true (RLit w) s (fun s' => rmatch true REnd s' (fun _ => true)) = true
   <-> toLowerCase s = w).
Proof.
  intros Hw. rewrite (rmatch_RLit w s _ Hw). split.
  - intros (pre & rest & -> & Hl & Hk). destruct rest; [|discriminate].
    now rewrite append_nil_r.
  - intros Hl. exists s, "". now rewrite append_nil_r.
Qed.

(** At one start position, [supportedFormats] matches the three
    extensions in any letter case and nothing else. *)
Lemma supportedFormats_here (s : string) :
  rmatch true supportedFormats_re s (fun _ => true) = true
  <-> toLowerCase s = ".jpg" \/ toLowerCase s = ".jpeg" \/ toLowerCase s = ".png".
Proof.
  destruct s as [|c s].
  - simpl. split; [discriminate | intros [H|[H|H]]; discriminate].
  - cbn [supportedFormats_re rmatch toLowerCase].
    rewrite (char_matches_lower "." c eq_refl).
    fold (RLit "jpg"). fold (RLit "jpeg"). fold (RLit "png").
    destruct (Ascii.eqb_spec (lower_char c) ".") as [He|Hne].
    + rewrite !orb_true_iff, !rmatch_RLit_end by reflexivity. rewrite He.
      split; (intros [H|[H|H]]; [left|right;left|right;right]);
        solve [now rewrite H | now injection H].
    + split; [discriminate|]. intros [H|[H|H]]; injection H as H _; contradiction.
Qed.

Lemma regex_test_suffix (r : regex) (p : string) :
  regex_test true r p = true
  <-> exists stem suffix, p = stem +:+ suffix /\ rmatch true r suffix (fun _ => true) = true.
Proof.
  induction p as [|c p IH]; cbn [regex_test]; rewrite orb_true_iff.
  - split.
    + intros [H|H]; [|discriminate]. exists "", "". auto.
    + intros (stem & suffix & Hs & H). destruct stem; [|discriminate].
      simpl in Hs. subst suffix. auto.
  - rewrite IH. split.
    + intros [H|(stem & suffix & -> & H)].
      * exists "", (String c p). auto.
      * exists (String c stem), suffix. auto.
    + intros (stem & suffix & Hs & H). destruct stem as [|d stem].
      * simpl in Hs. subst suffix. auto.
      * simpl in Hs. injection Hs as -> ->. right. eauto.
Qed.

(** The regular expression test is the extension check of the claim. *)
Lemma supportedFormats_test_spec (p : string) :
  supportedFormats_test p = true <-> supported_image_extension p.
Proof.
  unfold supportedFormats_test, supported_image_extension, has_extension.
  rewrite regex_test_suffix. split.
  - intros (stem & suffix & -> & H). apply supportedFormats_here in H.
    destruct H as [H|[H|H]]; [left|right;left|right;right]; eauto.
  - intros [H|[H|H]]; destruct H as (stem & suffix & -> & H);
      exists stem, suffix; (split; [reflexivity|]); apply supportedFormats_here; auto.
Qed.

(** ** Paths on POSIX: the extension of the input path *)

Lemma split_slash_join (p : string) :
  exists init seg,
    split_slash p = (init ++ [seg])%list /\ p = slash_after init +:+ seg.
Proof.
  induction p as [|c p (init & seg & Hs & Hp)].
  - exists [], "". split; reflexivity.
  - cbn [split_slash]. destruct (Ascii.eqb_spec c "/") as [->|Hc].
    + exists ("" :: init), seg. rewrite Hs. split; [reflexivity|].
      change (slash_after ("" :: init) +:+ seg)
        with (String "/" (slash_after init +:+ seg)).
      now rewrite <- Hp.
    + rewrite Hs. destruct init as [|s init]; cbn [app].
      * exists [], (String c seg). split; [reflexivity|].
        change (slash_after [] +:+ String c seg) with (String c (slash_after [] +:+ seg)).
        now rewrite <- Hp.
      * exists (String c s :: init), seg. split; [reflexivity|].
        change (slash_after (String c s :: init) +:+ seg)
          with (String c (slash_after (s :: init) +:+ seg)).
        now rewrite <- Hp.
Qed.

Lemma split_slash_append (a p : string) :
  split_slash (a +:+ "/" +:+ p) = (split_slash a ++ split_slash p)%list.
Proof.
  induction a as [|c a IH]; [reflexivity|].
  change (String c a +:+ "/" +:+ p) with (String c (a +:+ "/" +:+ p)).
  cbn [split_slash]. rewrite IH. destruct (Ascii.eqb c "/"); [reflexivity|].
  destruct (split_slash_join a) as (init & seg & Hs & _). rewrite Hs.
  destruct init; reflexivity.
Qed.

Lemma join_slash_snoc (stack : list string) (seg : string) :
  join_slash (stack ++ [seg]) = join_slash stack +:+ "/" +:+ seg.
Proof.
  unfold join_slash. induction stack as [|s stack IH]; cbn [app fold_right].
  - simpl. now rewrite append_nil_r.
  - rewrite IH. now rewrite !append_assoc'.
Qed.

(** [path.resolve] keeps an ordinary last segment. *)
Lemma posix_resolve_last_segment (cwd p : string) :
  ordinary_name (last_segment p) = true ->
  exists dir, posix_resolve cwd p = dir +:+ "/" +:+ last_segment p.
Proof.
  intros Ho. destruct (split_slash_join p) as (init & seg & Hs & _).
  assert (Hl : last_segment p = seg) by (unfold last_segment; rewrite Hs; apply last_last).
  rewrite Hl in *.
  assert (Hfull : exists init',
    split_slash (if String.prefix "/" p then p else cwd +:+ "/" +:+ p)
    = (init' ++ [seg])%list).
  { destruct (String.prefix "/" p).
    - now exists init.
    - exists (split_slash cwd ++ init)%list.
      now rewrite split_slash_append, Hs, app_assoc. }
  destruct Hfull as (init' & Hfull).
  unfold posix_resolve, normalize_abs. rewrite Hfull, fold_left_app.
  cbn [fold_left]. set (stack := fold_left normalize_step init' []).
  unfold normalize_step. unfold ordinary_name in Ho.
  apply negb_true_iff in Ho. apply orb_false_iff in Ho as [Ho Hdd].
  rewrite Ho, Hdd. exists (join_slash stack).
  rewrite <- join_slash_snoc. now destruct stack.
Qed.

Lemma lower_char_slash (c : ascii) :
  Ascii.eqb (lower_char c) "/" = Ascii.eqb c "/".
Proof.
  apply Bool.eqb_prop. revert c. apply forall_ascii. vm_compute. reflexivity.
Qed.

Lemma no_slash_toLowerCase (s : string) : no_slash (toLowerCase s) = no_slash s.
Proof.
  induction s as [|c s IH]; [reflexivity|].
  cbn [toLowerCase no_slash]. now rewrite lower_char_slash, IH.
Qed.

(** A suffix without a slash lies in the last segment. *)
Lemma suffix_in_last_segment (a seg stem suffix : string) :
  no_slash suffix = true ->
  a +:+ "/" +:+ seg = stem +:+ suffix ->
  exists stem', seg = stem' +:+ suffix.
Proof.
  intros Hn. revert stem. induction a as [|c a IH]; intros stem H.
  - destruct stem as [|d stem]; simpl in H.
    + subst suffix. simpl in Hn. discriminate.
    + injection H as _ H. now exists stem.
  - destruct stem as [|d stem]; simpl in H.
    + subst suffix. exfalso. clear IH. cbn [no_slash] in Hn.
      apply andb_true_iff in Hn as [_ Hn].
      induction a as [|e a IHa]; simpl in Hn.
      * discriminate.
      * apply andb_true_iff in Hn as [_ Hn]. auto.
    + injection H as _ H. now apply IH with stem.
Qed.

Lemma has_extension_after_slash (a seg ext : string) :
  no_slash ext = true ->
  (has_extension (a +:+ "/" +:+ seg) ext <-> has_extension seg ext).
Proof.
  intros Hn. split.
  - intros (stem & suffix & H & Hl).
    destruct (suffix_in_last_segment a seg stem suffix) as (stem' & Hs); [|exact H|].
    + now rewrite <- no_slash_toLowerCase, Hl.
    + now exists stem', suffix.
  - intros (stem & suffix & -> & Hl). exists (a +:+ "/" +:+ stem), suffix.
    split; [now rewrite !append_assoc'|exact Hl].
Qed.

Lemma has_extension_last_segment (p ext : string) :
  no_slash ext = true ->
  (has_extension p ext <-> has_extension (last_segment p) ext).
Proof.
  intros Hn. destruct (split_slash_join p) as (init & seg & Hs & Hp).
  assert (Hl : last_segment p = seg) by (unfold last_segment; rewrite Hs; apply last_last).
  rewrite Hl. clear Hs Hl.
  assert (Hshape : slash_after init = "" \/ exists a, slash_after init = a +:+ "/").
  { clear. induction init as [|s init IH]; [now left|]. right. cbn [slash_after].
    destruct IH as [->|(a & ->)].
    - now exists s.
    - exists (s +:+ "/" +:+ a). now rewrite !append_assoc'. }
  destruct Hshape as [E|(a & E)]; rewrite E in Hp; subst p.
  - reflexivity.
  - rewrite append_assoc'. now apply has_extension_after_slash.
Qed.

(** On POSIX, an input path whose last segment is an ordinary name and
    its resolved form have the same extensions: the extension checks of
    the operations, made on the resolved path, speak of the input path. *)
Lemma posix_resolve_extension (cwd p ext : string) :
  ordinary_name (last_segment p) = true ->
  no_slash ext = true ->
  (has_extension (posix_resolve cwd p) ext <-> has_extension p ext).
Proof.
  intros Ho Hn. destruct (posix_resolve_last_segment cwd p Ho) as (dir & ->).
  rewrite has_extension_after_slash by exact Hn.
  symmetry. now apply has_extension_last_segment.
Qed.

Lemma posix_resolve_image_extension (cwd p : string) :
  ordinary_name (last_segment p) = true ->
  (supported_image_extension (posix_resolve cwd p) <-> supported_image_extension p).
Proof.
  intros Ho. unfold supported_image_extension.
  now rewrite !(posix_resolve_extension cwd p _ Ho) by reflexivity.
Qed.

Example posix_resolve_extension_samples :
  map (fun p => (ordinary_name (last_segment p),
                 supportedFormats_test p,
                 supportedFormats_test (posix_resolve "/home/u" p)))
      ["photo.PNG"; "../pics/a.jpeg"; "a.png/"; "a.png/."; "a.gif"]
  = [(true, true, true); (true, true, true); (false, false, true);
     (false, false, true); (true, false, false)].
Proof. reflexivity. Qed.

(** ** Quoted tokens *)

(** A path without a double quote is read back whole from between its
    quotes, blanks included. *)
Lemma read_quoted_path (p rest : string) :
  no_quote p = true -> read_quoted (quoted p +:+ rest) = Some (p, rest).
Proof.
  intros Hn. unfold quoted, dq. rewrite !append_assoc'. cbn [String.append read_quoted].
  rewrite Ascii.eqb_refl.
  induction p as [|c p IH]; cbn [String.append until_quote].
  - now rewrite Ascii.eqb_refl.
  - cbn [no_quote] in Hn. apply andb_true_iff in Hn as [Hc Hn].
    apply negb_true_iff in Hc. rewrite Hc, (IH Hn). reflexivity.
Qed.

(** ** Running the operations *)

Ltac run_ops :=
  unfold compressPDF, compressImageLossy, compressImageLossless, compressVideo,
    compressMP3, validate_image, run_magick, execPromise, fs_access, fs_stat_size,
    console_error, of_sum, try_catch, bind, ret, throw, spawned_by, result_of in *;
  cbn [negb fst snd w_fs w_spawned w_console mode_allows] in *.

Ltac run_simpl := cbn [negb fst snd w_fs w_spawned w_console mode_allows] in *.

(** Case analysis on the innermost scrutinee first. *)
Ltac case_inner x :=
  lazymatch x with
  | context [match ?y with _ => _ end] => case_inner y
  | _ => destruct x eqn:?
  end.

Ltac split_run :=
  repeat (simplify_eq/=;
          match goal with
          | |- context [match ?x with _ => _ end] => case_inner x
          | H : context [match ?x with _ => _ end] |- _ => case_inner x
          end);
  simplify_eq/=.

Section Runs.

Variable resolve : string -> string.
Variable dirname : string -> string.
Variable run_tool : string -> gmap string node -> option string * gmap string node.

(** compressVideo stops at its existence check. *)
Lemma compressVideo_missing inputPath outputPath options w :
  w_fs w !! resolve inputPath = None ->
  compressVideo resolve run_tool inputPath outputPath options w
  = (Thrown (FsError ENOENT "access" (resolve inputPath)), w).
Proof. intros H. run_ops. now rewrite H. Qed.

(** compressPDF starts Ghostscript at once. *)
Lemma compressPDF_spawns inputPath outputPath w :
  spawned_by (compressPDF resolve run_tool inputPath outputPath) w
  = (w_spawned w ++ [gsCommand (resolve inputPath) (resolve outputPath)])%list.
Proof. run_ops. split_run; reflexivity. Qed.

(** The image operations reject an unsupported extension at once; the
    outer [catch] logs the error and throws it again. *)
Lemma compressImageLossy_unsupported inputPath outputPath quality w :
  supportedFormats_test (resolve inputPath) = false ->
  compressImageLossy resolve dirname run_tool inputPath outputPath quality w
  = (Thrown unsupported_format,
     {| w_fs := w_fs w; w_spawned := w_spawned w;
        w_console := (w_console w
                      ++ [("Error compressing image with ImageMagick:",
                           unsupported_format)])%list |}).
Proof. intros H. run_ops. now rewrite H. Qed.

Lemma compressImageLossless_unsupported inputPath outputPath level w :
  supportedFormats_test (resolve inputPath) = false ->
  compressImageLossless resolve dirname run_tool inputPath outputPath level w
  = (Thrown unsupported_format,
     {| w_fs := w_fs w; w_spawned := w_spawned w;
        w_console := (w_console w
                      ++ [("Error compressing image with ImageMagick:",
                           unsupported_format)])%list |}).
Proof. intros H. run_ops. now rewrite H. Qed.

(** With a supported extension the format check is passed: validation
    is the two permission checks. *)
Lemma validate_image_supported resolvedInputPath outputDir w :
  supportedFormats_test resolvedInputPath = true ->
  validate_image resolvedInputPath outputDir w
  = (fs_access resolvedInputPath R_OK ;;; fs_access outputDir W_OK) w.
Proof. intros H. unfold validate_image, bind, ret. now rewrite H. Qed.

Lemma wrapped_is_not_unsupported (msg : string) :
  JsError ("Failed to compress image: " +:+ msg) <> unsupported_format.
Proof. unfold unsupported_format. simpl. discriminate. Qed.

Lemma compressImageLossy_supported inputPath outputPath quality w :
  supportedFormats_test (resolve inputPath) = true ->
  result_of (compressImageLossy resolve dirname run_tool inputPath outputPath quality) w
  <> Thrown unsupported_format.
Proof.
  intros H. run_ops. rewrite H. cbn [negb].
  split_run; try discriminate; intros E; injection E as E;
    now apply wrapped_is_not_unsupported in E.
Qed.

Lemma compressImageLossless_supported inputPath outputPath level w :
  supportedFormats_test (resolve inputPath) = true ->
  result_of (compressImageLossless resolve dirname run_tool inputPath outputPath level) w
  <> Thrown unsupported_format.
Proof.
  intros H. run_ops. rewrite H. cbn [negb].
  split_run; try discriminate; intros E; injection E as E;
    now apply wrapped_is_not_unsupported in E.
Qed.

(** With a supported extension, a readable input and a writable output
    directory, an image operation spawns its ImageMagick command. *)
Lemma compressImageLossy_spawns inputPath outputPath quality w n d :
  supportedFormats_test (resolve inputPath) = true ->
  w_fs w !! resolve inputPath = Some n -> n_readable n = true ->
  w_fs w !! dirname (resolve outputPath) = Some d -> n_writable d = true ->
  spawned_by (compressImageLossy resolve dirname run_tool inputPath outputPath quality) w
  = (w_spawned w
     ++ [lossy_magickCommand (resolve inputPath) (resolve outputPath)
                             (nullish quality 75)])%list.
Proof.
  intros H Hn Hr Hd Hw. run_ops. rewrite H. run_simpl. rewrite Hn. run_simpl.
  rewrite Hr, Hd. run_simpl. rewrite Hw. split_run; reflexivity.
Qed.

Lemma compressImageLossless_spawns inputPath outputPath level w n d :
  supportedFormats_test (resolve inputPath) = true ->
  w_fs w !! resolve inputPath = Some n -> n_readable n = true ->
  w_fs w !! dirname (resolve outputPath) = Some d -> n_writable d = true ->
  spawned_by (compressImageLossless resolve dirname run_tool inputPath outputPath level) w
  = (w_spawned w
     ++ [lossless_magickCommand (resolve inputPath) (resolve outputPath)
                                (nullish level 75)])%list.
Proof.
  intros H Hn Hr Hd Hw. run_ops. rewrite H. run_simpl. rewrite Hn. run_simpl.
  rewrite Hr, Hd. run_simpl. rewrite Hw. split_run; reflexivity.
Qed.

(** An unreadable input with a supported extension stops an image
    operation at the read-access check. *)
Lemma compressImageLossy_unreadable inputPath outputPath quality w n :
  supportedFormats_test (resolve inputPath) = true ->
  w_fs w !! resolve inputPath = Some n -> n_readable n = false ->
  let run := compressImageLossy resolve dirname run_tool inputPath outputPath quality in
  result_of run w = Thrown (FsError EACCES "access" (resolve inputPath))
  /\ spawned_by run w = w_spawned w /\ w_fs (snd (run w)) = w_fs w.
Proof.
  intros H Hn Hr run. subst run. run_ops. rewrite H. run_simpl. rewrite Hn.
  run_simpl. rewrite Hr. auto.
Qed.

Lemma compressImageLossless_unreadable inputPath outputPath level w n :
  supportedFormats_test (resolve inputPath) = true ->
  w_fs w !! resolve inputPath = Some n -> n_readable n = false ->
  let run := compressImageLossless resolve dirname run_tool inputPath outputPath level in
  result_of run w = Thrown (FsError EACCES "access" (resolve inputPath))
  /\ spawned_by run w = w_spawned w /\ w_fs (snd (run w)) = w_fs w.
Proof.
  intros H Hn Hr run. subst run. run_ops. rewrite H. run_simpl. rewrite Hn.
  run_simpl. rewrite Hr. auto.
Qed.

(** compressMP3 asks for the existence of the input and for its
    extension; FFmpeg is started as soon as both hold. *)
Lemma compressMP3_spawns inputPath outputPath options w n :
  w_fs w !! resolve inputPath = Some n ->
  endsWith (toLowerCase (resolve inputPath)) ".mp3" = true ->
  spawned_by (compressMP3 resolve run_tool inputPath outputPath options) w
  = (w_spawned w
     ++ [mp3_ffmpegCommand (resolve inputPath) (resolve outputPath) options])%list.
Proof.
  intros Hn He. run_ops. rewrite Hn. run_simpl. rewrite He. run_simpl.
  split_run; reflexivity.
Qed.

Lemma compressMP3_rejects inputPath outputPath options w :
  endsWith (toLowerCase (resolve inputPath)) ".mp3" = false ->
  compressMP3 resolve run_tool inputPath outputPath options w
  = (Thrown match w_fs w !! resolve inputPath with
            | Some _ => not_an_mp3
            | None => FsError ENOENT "access" (resolve inputPath)
            end, w).
Proof.
  intros He. run_ops. destruct (w_fs w !! resolve inputPath); [|reflexivity].
  run_simpl. now rewrite He.
Qed.

(** *** The claims on validation *)

(** C1 (amended). For an input path that does not exist, compressVideo
    fails with the error of the existence check on the resolved input path
    and leaves the world as it was: no process is spawned. compressPDF has
    no existence check: it spawns the Ghostscript command first, and when
    that process fails the error thrown is the one of the process. *)
Theorem missing_input_check inputPath outputPath options w :
  w_fs w !! resolve inputPath = None ->
  compressVideo resolve run_tool inputPath outputPath options w
  = (Thrown (FsError ENOENT "access" (resolve inputPath)), w)
  /\ spawned_by (compressPDF resolve run_tool inputPath outputPath) w
     = (w_spawned w ++ [gsCommand (resolve inputPath) (resolve outputPath)])%list
  /\ (forall msg fs',
        run_tool (gsCommand (resolve inputPath) (resolve outputPath)) (w_fs w)
        = (Some msg, fs') ->
        result_of (compressPDF resolve run_tool inputPath outputPath) w
        = Thrown (ExecError msg)).
Proof.
  intros H. split; [now apply compressVideo_missing|].
  split; [apply compressPDF_spawns|].
  intros msg fs' Ht. run_ops. now rewrite Ht.
Qed.

(** C2 (amended). When the extension of the resolved input path is .jpg, .jpeg or
    .png in any letter case, compressImageLossy and compressImageLossless
    pass the format check: validation continues with the permission checks,
    the operation does not end in the unsupported-format error, and with a
    readable input and a writable output directory the ImageMagick command
    is spawned. With any other extension both throw the error 'Unsupported
    file format. Use JPG, JPEG, or PNG.', spawn no process and leave the
    file system as it was. *)
Theorem image_format_check inputPath outputPath quality compressionLevel w :
  let lossy := compressImageLossy resolve dirname run_tool inputPath outputPath quality in
  let lossless :=
    compressImageLossless resolve dirname run_tool inputPath outputPath compressionLevel in
  (supported_image_extension (resolve inputPath) ->
   validate_image (resolve inputPath) (dirname (resolve outputPath)) w
   = (fs_access (resolve inputPath) R_OK ;;;
      fs_access (dirname (resolve outputPath)) W_OK) w
   /\ result_of lossy w <> Thrown unsupported_format
   /\ result_of lossless w <> Thrown unsupported_format
   /\ (forall n d,
         w_fs w !! resolve inputPath = Some n -> n_readable n = true ->
         w_fs w !! dirname (resolve outputPath) = Some d -> n_writable d = true ->
         spawned_by lossy w
         = (w_spawned w
            ++ [lossy_magickCommand (resolve inputPath) (resolve outputPath)
                                    (nullish quality 75)])%list
         /\ spawned_by lossless w
            = (w_spawned w
               ++ [lossless_magickCommand (resolve inputPath) (resolve outputPath)
                                          (nullish compressionLevel 75)])%list))
  /\ (~ supported_image_extension (resolve inputPath) ->
      (result_of lossy w = Thrown unsupported_format
       /\ spawned_by lossy w = w_spawned w /\ w_fs (snd (lossy w)) = w_fs w)
      /\ (result_of lossless w = Thrown unsupported_format
          /\ spawned_by lossless w = w_spawned w /\ w_fs (snd (lossless w)) = w_fs w)).
Proof.
  intros lossy lossless. split.
  - intros H. apply supportedFormats_test_spec in H. split; [|split; [|split]].
    + now apply validate_image_supported.
    + now apply compressImageLossy_supported.
    + now apply compressImageLossless_supported.
    + intros n d Hn Hr Hd Hw. split.
      * now apply (compressImageLossy_spawns _ _ _ _ n d).
      * now apply (compressImageLossless_spawns _ _ _ _ n d).
  - intros H.
    assert (Ht : supportedFormats_test (resolve inputPath) = false).
    { destruct (supportedFormats_test (resolve inputPath)) eqn:E; [|reflexivity].
      now apply supportedFormats_test_spec in E. }
    subst lossy lossless. unfold result_of, spawned_by.
    rewrite (compressImageLossy_unsupported _ _ _ _ Ht),
      (compressImageLossless_unsupported _ _ _ _ Ht). cbn. auto 10.
Qed.

(** C3 (amended). When the extension of the resolved input path is not
    .mp3 in any letter case, compressMP3 fails and leaves the world as it
    was, so no process is spawned. The existence check comes first: the
    error is 'Input file must be an MP3.' when the input exists, and the
    error of the existence check when it does not. *)
Theorem mp3_extension_check inputPath outputPath options w :
  ~ has_extension (resolve inputPath) ".mp3" ->
  compressMP3 resolve run_tool inputPath outputPath options w
  = (Thrown match w_fs w !! resolve inputPath with
            | Some _ => not_an_mp3
            | None => FsError ENOENT "access" (resolve inputPath)
            end, w).
Proof.
  intros H. apply compressMP3_rejects.
  destruct (endsWith (toLowerCase (resolve inputPath)) ".mp3") eqn:E; [|reflexivity].
  now apply endsWith_lower_extension in E.
Qed.

(** C5 (amended). For an input that exists and is not readable: when its
    resolved path has a supported image extension, compressImageLossy and
    compressImageLossless fail with the I/O error of the read-access check
    (EACCES), spawn no process and leave the file system as it was; with
    another extension they fail earlier, with the unsupported-format error.
    compressMP3 checks only that the input exists: when the resolved path
    ends in .mp3, validation is passed and the FFmpeg command is spawned. *)
Theorem unreadable_input_check inputPath outputPath quality compressionLevel options w n :
  w_fs w !! resolve inputPath = Some n ->
  n_readable n = false ->
  let lossy := compressImageLossy resolve dirname run_tool inputPath outputPath quality in
  let lossless :=
    compressImageLossless resolve dirname run_tool inputPath outputPath compressionLevel in
  (supported_image_extension (resolve inputPath) ->
   (result_of lossy w = Thrown (FsError EACCES "access" (resolve inputPath))
    /\ spawned_by lossy w = w_spawned w /\ w_fs (snd (lossy w)) = w_fs w)
   /\ (result_of lossless w = Thrown (FsError EACCES "access" (resolve inputPath))
       /\ spawned_by lossless w = w_spawned w /\ w_fs (snd (lossless w)) = w_fs w))
  /\ (~ supported_image_extension (resolve inputPath) ->
      result_of lossy w = Thrown unsupported_format
      /\ result_of lossless w = Thrown unsupported_format)
  /\ (has_extension (resolve inputPath) ".mp3" ->
      spawned_by (compressMP3 resolve run_tool inputPath outputPath options) w
      = (w_spawned w
         ++ [mp3_ffmpegCommand (resolve inputPath) (resolve outputPath) options])%list).
Proof.
  intros Hn Hr lossy lossless. split; [|split].
  - intros H. apply supportedFormats_test_spec in H. split.
    + now apply (compressImageLossy_unreadable _ _ _ _ n).
    + now apply (compressImageLossless_unreadable _ _ _ _ n).
  - intros H.
    assert (Ht : supportedFormats_test (resolve inputPath) = false).
    { destruct (supportedFormats_test (resolve inputPath)) eqn:E; [|reflexivity].
      now apply supportedFormats_test_spec in E. }
    subst lossy lossless. unfold result_of.
    now rewrite (compressImageLossy_unsupported _ _ _ _ Ht),
      (compressImageLossless_unsupported _ _ _ _ Ht).
  - intros H. apply endsWith_lower_extension in H.
    now apply (compressMP3_spawns _ _ _ _ n).
Qed.

End Runs.

(** ** Command synthesis *)

Lemma prefix_append (x s : string) : String.prefix x (x +:+ s) = true.
Proof.
  induction x as [|c x IH]; simpl; [now destruct s|].
  destruct (ascii_dec c c); [exact IH | contradiction].
Qed.

Lemma contains_append (x pre post : string) : contains x (pre +:+ x +:+ post) = true.
Proof.
  induction pre as [|c pre IH].
  - change ("" +:+ x +:+ post) with (x +:+ post).
    pose proof (prefix_append x post) as H.
    destruct (x +:+ post); cbn [contains]; now rewrite H.
  - change (String c pre +:+ x +:+ post) with (String c (pre +:+ x +:+ post)).
    cbn [contains]. rewrite IH. apply orb_true_r.
Qed.

Lemma contains_intro (x s pre post : string) :
  s = pre +:+ x +:+ post -> contains x s = true.
Proof. intros ->. apply contains_append. Qed.

(** Both sides written as characters in front of the unknown parts. *)
Ltac assoc :=
  unfold video_head, video_tail, quoted, indent8, indent6, nl, dq;
  repeat rewrite append_assoc'; cbn [String.append].


(** C4. In the command of compressMP3 the flags between the two quoted
    paths are the encoder, the rate flag, the mono flag and -y. The rate
    flag is '-b:a {bitrate}' when options.bitrate is supplied, and then the
    flags hold no '-q:a'; otherwise it is '-q:a {quality}', with 4 for a
    quality left unset. *)
Theorem mp3_rate_flag (rin rout : string) (options : AudioOptions.t) :
  exists mono_flag,
    let flags := " -c:a libmp3lame " +:+ rate_flag options +:+ " " +:+ mono_flag +:+ " -y " in
    (mono_flag = "-ac 1" \/ mono_flag = "")
    /\ mp3_ffmpegCommand rin rout options
       = "ffmpeg -i " +:+ quoted rin +:+ flags +:+ quoted rout
    /\ match AudioOptions.bitrate options with
       | Some b =>
           contains ("-b:a " +:+ SoundBitRate.value b) flags = true
           /\ contains "-q:a" flags = false
       | None =>
           contains ("-q:a " +:+ match AudioOptions.quality options with
                                 | Some q => Number_toString q
                                 | None => "4"
                                 end) flags = true
       end.
Proof.
  exists (if bool_truthy (AudioOptions.mono options) then "-ac 1" else "").
  cbv zeta. split; [destruct (bool_truthy _); auto|]. split.
  - unfold mp3_ffmpegCommand, rate_flag, quoted.
    destruct (AudioOptions.bitrate options), (AudioOptions.quality options);
      unfold nullish; assoc; reflexivity.
  - unfold rate_flag. destruct (AudioOptions.bitrate options) as [b|].
    + destruct b, (bool_truthy (AudioOptions.mono options)); split; reflexivity.
    + apply (contains_append _ " -c:a libmp3lame ").
Qed.

Lemma Number_toString_num_or (d : option Z) :
  Number_toString (num_or d (-1)) = scale_dim d.
Proof. destruct d as [n|]; [|reflexivity]. simpl. now destruct (Z.eqb n 0). Qed.

(** The commands of the H.264, H.265 and VP9 branches: the flags between
    the quoted paths hold the crf and, separated by blanks, the fps and
    scale texts. *)
Lemma video_command_flags (rin rout : string) (options : VideoOptions.t) :
  video_codec options <> SupportedCodecs.GIF ->
  exists flags,
    video_ffmpegCommand rin rout options
    = inr (video_head +:+ quoted rin +:+ flags +:+ quoted rout +:+ video_tail)
    /\ contains (" -crf " +:+ Number_toString (video_crf options) +:+ " ") flags = true
    /\ contains (" " +:+ video_scale options +:+ " ") flags = true.
Proof.
  intros Hc. unfold video_ffmpegCommand.
  set (crf := Number_toString (video_crf options)).
  set (preset := VideoPresets.value (video_preset options)).
  set (fps := video_fps options). set (scale := video_scale options).
  destruct (video_codec options) eqn:E; [| | |contradiction];
    cbn [SupportedCodecs.eqb SupportedCodecs.value String.eqb Ascii.eqb Bool.eqb orb].
  - exists (" " +:+ indent8 +:+ "-c:v libx264 -crf " +:+ crf +:+ " -preset " +:+ preset
            +:+ " " +:+ indent8 +:+ "-c:a aac -b:a 128k " +:+ indent8 +:+ fps
            +:+ " " +:+ scale +:+ " " +:+ indent8 +:+ "-movflags +faststart "
            +:+ indent8).
    split; [|split].
    + f_equal. assoc. reflexivity.
    + apply (contains_intro _ _ (" " +:+ indent8 +:+ "-c:v libx264")
               ("-preset " +:+ preset +:+ " " +:+ indent8 +:+ "-c:a aac -b:a 128k "
                +:+ indent8 +:+ fps +:+ " " +:+ scale +:+ " " +:+ indent8
                +:+ "-movflags +faststart " +:+ indent8)).
      assoc. reflexivity.
    + apply (contains_intro _ _ (" " +:+ indent8 +:+ "-c:v libx264 -crf " +:+ crf
                                 +:+ " -preset " +:+ preset +:+ " " +:+ indent8
                                 +:+ "-c:a aac -b:a 128k " +:+ indent8 +:+ fps)
               (indent8 +:+ "-movflags +faststart " +:+ indent8)).
      assoc. reflexivity.
  - exists (" " +:+ indent8 +:+ "-c:v libx265 -crf " +:+ crf +:+ " -preset " +:+ preset
            +:+ " " +:+ indent8 +:+ "-c:a aac -b:a 128k " +:+ indent8 +:+ fps
            +:+ " " +:+ scale +:+ " " +:+ indent8 +:+ "-movflags +faststart "
            +:+ indent8).
    split; [|split].
    + f_equal. assoc. reflexivity.
    + apply (contains_intro _ _ (" " +:+ indent8 +:+ "-c:v libx265")
               ("-preset " +:+ preset +:+ " " +:+ indent8 +:+ "-c:a aac -b:a 128k "
                +:+ indent8 +:+ fps +:+ " " +:+ scale +:+ " " +:+ indent8
                +:+ "-movflags +faststart " +:+ indent8)).
      assoc. reflexivity.
    + apply (contains_intro _ _ (" " +:+ indent8 +:+ "-c:v libx265 -crf " +:+ crf
                                 +:+ " -preset " +:+ preset +:+ " " +:+ indent8
                                 +:+ "-c:a aac -b:a 128k " +:+ indent8 +:+ fps)
               (indent8 +:+ "-movflags +faststart " +:+ indent8)).
      assoc. reflexivity.
  - exists (" " +:+ indent8 +:+ "-c:v libvpx-vp9 -crf " +:+ crf +:+ " -b:v 0 "
            +:+ indent8 +:+ "-c:a libopus -b:a 128k " +:+ indent8 +:+ fps
            +:+ " " +:+ scale +:+ " " +:+ indent8).
    split; [|split].
    + f_equal. assoc. reflexivity.
    + apply (contains_intro _ _ (" " +:+ indent8 +:+ "-c:v libvpx-vp9")
               ("-b:v 0 " +:+ indent8 +:+ "-c:a libopus -b:a 128k " +:+ indent8
                +:+ fps +:+ " " +:+ scale +:+ " " +:+ indent8)).
      assoc. reflexivity.
    + apply (contains_intro _ _ (" " +:+ indent8 +:+ "-c:v libvpx-vp9 -crf " +:+ crf
                                 +:+ " -b:v 0 " +:+ indent8
                                 +:+ "-c:a libopus -b:a 128k " +:+ indent8 +:+ fps)
               indent8).
      assoc. reflexivity.
Qed.

(** C6. Two calls of compressVideo with codec GIF and the same paths
    synthesize the same command, whatever their fps, scale, crf and preset:
    the input, the fixed filter graph (15 fps, width 640 with the height
    following, lanczos resampling, palette generation and use), '-loop 0'
    and the output. The two calls then run alike in every world. *)
Theorem gif_command_fixed (resolve : string -> string)
    (run_tool : string -> gmap string node -> option string * gmap string node)
    (inputPath outputPath : string) (o1 o2 : VideoOptions.t) :
  VideoOptions.codec o1 = Some SupportedCodecs.GIF ->
  VideoOptions.codec o2 = Some SupportedCodecs.GIF ->
  let rin := resolve inputPath in
  let rout := resolve outputPath in
  video_ffmpegCommand rin rout o1
  = inr (video_head +:+ quoted rin +:+ " " +:+ indent8 +:+ "-vf " +:+ quoted gif_filter
         +:+ " " +:+ indent8 +:+ "-loop 0 " +:+ indent8 +:+ quoted rout +:+ video_tail)
  /\ video_ffmpegCommand rin rout o1 = video_ffmpegCommand rin rout o2
  /\ forall w,
       compressVideo resolve run_tool inputPath outputPath o1 w
       = compressVideo resolve run_tool inputPath outputPath o2 w.
Proof.
  intros H1 H2 rin rout.
  assert (G : forall o, VideoOptions.codec o = Some SupportedCodecs.GIF ->
    video_ffmpegCommand rin rout o
    = inr (video_head +:+ quoted rin +:+ " " +:+ indent8 +:+ "-vf " +:+ quoted gif_filter
           +:+ " " +:+ indent8 +:+ "-loop 0 " +:+ indent8 +:+ quoted rout +:+ video_tail)).
  { intros o Ho. unfold video_ffmpegCommand, video_codec. rewrite Ho.
    cbn [nullish SupportedCodecs.eqb SupportedCodecs.value String.eqb Ascii.eqb
         Bool.eqb orb].
    f_equal. unfold gif_filter. assoc. reflexivity. }
  split; [now apply G|]. split; [now rewrite !G|].
  intros w. unfold compressVideo. fold rin rout. now rewrite !G.
Qed.

Ltac same_needle H :=
  match goal with
  | |- contains ?a _ = true =>
      match type of H with
      | contains ?b _ = true => replace a with b by (assoc; reflexivity); exact H
      end
  end.

(** C7 (amended). For every call of compressVideo whose codec is H.264,
    H.265 or VP9 (or left to the default) and whose scale option omits the
    width or the height, the scale filter among the flags of the command
    writes the omitted dimension as -1. *)
Theorem scale_filter_omitted_dimension (rin rout : string)
    (options : VideoOptions.t) (sc : Scale.t) :
  video_codec options <> SupportedCodecs.GIF ->
  VideoOptions.scale options = Some sc ->
  exists flags,
    video_ffmpegCommand rin rout options
    = inr (video_head +:+ quoted rin +:+ flags +:+ quoted rout +:+ video_tail)
    /\ (Scale.height sc = None ->
        contains (" -vf scale=" +:+ scale_dim (Scale.width sc) +:+ ":-1 ") flags = true)
    /\ (Scale.width sc = None ->
        contains (" -vf scale=-1:" +:+ scale_dim (Scale.height sc) +:+ " ") flags = true).
Proof.
  intros Hc Hs. destruct (video_command_flags rin rout options Hc) as (flags & Hf & _ & Hv).
  exists flags. split; [exact Hf|].
  unfold video_scale in Hv. rewrite Hs, !Number_toString_num_or in Hv.
  split; intros Hd; rewrite Hd in *; cbn [scale_dim] in *; same_needle Hv.
Qed.

(** C10 (amended). In a call of compressVideo whose codec is H.264, H.265
    or VP9 (or left to the default), a crf of 0 is kept: the flags of the
    command hold '-crf 0'. A scale width or height of 0 is written as -1 in
    the scale filter. *)
Theorem zero_crf_kept_zero_scale_replaced (rin rout : string)
    (options : VideoOptions.t) :
  video_codec options <> SupportedCodecs.GIF ->
  exists flags,
    video_ffmpegCommand rin rout options
    = inr (video_head +:+ quoted rin +:+ flags +:+ quoted rout +:+ video_tail)
    /\ (VideoOptions.crf options = Some 0 -> contains " -crf 0 " flags = true)
    /\ (forall sc, VideoOptions.scale options = Some sc ->
        (Scale.width sc = Some 0 ->
         contains (" -vf scale=-1:" +:+ scale_dim (Scale.height sc) +:+ " ") flags = true)
        /\ (Scale.height sc = Some 0 ->
            contains (" -vf scale=" +:+ scale_dim (Scale.width sc) +:+ ":-1 ") flags
            = true)).
Proof.
  intros Hc. destruct (video_command_flags rin rout options Hc) as (flags & Hf & Hq & Hv).
  exists flags. split; [exact Hf|]. split.
  - intros H0. unfold video_crf in Hq. now rewrite H0 in Hq.
  - intros sc Hs. unfold video_scale in Hv. rewrite Hs, !Number_toString_num_or in Hv.
    split; intros Hd; rewrite Hd in *; cbn [scale_dim Z.eqb] in *; same_needle Hv.
Qed.


(** *** Reading the quoted tokens of a command *)















(** ** Result assembly *)

Lemma bytes_to_KB_div (size : Z) :
  (bytes_to_KB size == inject_Z size / inject_Z 1024)%Q.
Proof. unfold bytes_to_KB. apply Qmake_Qdiv. Qed.

(** C9. When one of the five operations returns, the returned outputPath
    is the resolved output path, a file is there in the world the
    operation leaves, and the returned compressedSizeKB is the size of that
    file in bytes divided by 1024. *)
Theorem result_size_and_path (resolve dirname : string -> string)
    (run_tool : string -> gmap string node -> option string * gmap string node)
    (op : operation) (input output : string) (w w' : world) (r : CompressResult) :
  run_operation resolve dirname run_tool op input output w = (Returned r, w') ->
  outputPath r = resolve output
  /\ exists n,
       w_fs w' !! resolve output = Some n
       /\ (compressedSizeKB r == inject_Z (n_size n) / inject_Z 1024)%Q.
Proof.
  intros H. destruct op; unfold run_operation in H; run_ops; split_run;
    (split; [reflexivity|]); eexists; (split; [eassumption|]);
    apply bytes_to_KB_div.
Qed.

(** * Concrete runs

    The operations on the POSIX platform, in the working directory
    [/home/u]. *)

Lemma no_extension (p ext : string) :
  endsWith (toLowerCase p) ext = false -> ~ has_extension p ext.
Proof. intros E H. apply endsWith_lower_extension in H. congruence. Defined.

Lemma no_image_extension (p : string) :
  supportedFormats_test p = false -> ~ supported_image_extension p.
Proof. intros E H. apply supportedFormats_test_spec in H. congruence. Defined.

(** C1, the claim fails for compressPDF: the input does not exist, and the
    Ghostscript command is spawned all the same; the error thrown is the
    one of the failed process. *)
Lemma compressPDF_missing_input_spawns :
  let w := world_of ∅ in
  let run := compressPDF home_resolve (tool_fails "gs: missing.pdf: No such file")
                         "missing.pdf" "out.pdf" in
  w_fs w !! home_resolve "missing.pdf" = None
  /\ spawned_by run w
     = ["gs -sDEVICE=pdfwrite -dCompatibilityLevel=1.4 -dPDFSETTINGS=/screen -dNOPAUSE -dQUIET -dBATCH -sOutputFile="
        +:+ quoted "/home/u/out.pdf" +:+ " " +:+ quoted "/home/u/missing.pdf"]
  /\ result_of run w = Thrown (ExecError "gs: missing.pdf: No such file").
Proof. cbv zeta. split; [|split]; vm_compute; reflexivity. Qed.

Lemma missing_input_check_witness :
  let w := world_of ∅ in
  let tool := tool_fails "gs: missing.mp4: No such file" in
  compressVideo home_resolve tool "missing.mp4" "out.mp4" VideoOptions.empty w
  = (Thrown (FsError ENOENT "access" "/home/u/missing.mp4"), w)
  /\ spawned_by (compressPDF home_resolve tool "missing.mp4" "out.mp4") w
     = [gsCommand "/home/u/missing.mp4" "/home/u/out.mp4"].
Proof.
  cbv zeta.
  assert (Hmissing : w_fs (world_of ∅) !! home_resolve "missing.mp4" = None)
    by (vm_compute; reflexivity).
  destruct (missing_input_check home_resolve
              (tool_fails "gs: missing.mp4: No such file")
              "missing.mp4" "out.mp4" VideoOptions.empty (world_of ∅) Hmissing)
    as (Hv & Hp & _).
  split; [exact Hv | exact Hp].
Defined.

Lemma image_format_check_witness :
  let w := world_of (<["/home/u" := plain_file 4096]>
                      {["/home/u/photo.PNG" := plain_file 512000]}) in
  let tool := tool_writes "/home/u/small.png" 122880 in
  let lossy := compressImageLossy home_resolve posix_dirname tool
                 "photo.PNG" "small.png" (Some 40) in
  result_of lossy w <> Thrown unsupported_format
  /\ spawned_by lossy w
     = ["magick " +:+ quoted "/home/u/photo.PNG" +:+ " -quality 40 -strip "
        +:+ quoted "/home/u/small.png"]
  /\ result_of (compressImageLossless home_resolve posix_dirname tool
                  "anim.gif" "small.png" None) w
     = Thrown unsupported_format.
Proof.
  cbv zeta.
  set (w := world_of (<["/home/u" := plain_file 4096]>
                        {["/home/u/photo.PNG" := plain_file 512000]})).
  set (tool := tool_writes "/home/u/small.png" 122880).
  assert (Hphoto : w_fs w !! home_resolve "photo.PNG" = Some (plain_file 512000))
    by (vm_compute; reflexivity).
  assert (Hdir : w_fs w !! posix_dirname (home_resolve "small.png")
                 = Some (plain_file 4096))
    by (vm_compute; reflexivity).
  destruct (image_format_check home_resolve posix_dirname tool
              "photo.PNG" "small.png" (Some 40) None w) as [Hyes _].
  destruct (image_format_check home_resolve posix_dirname tool
              "anim.gif" "small.png" (Some 40) None w) as [_ Hno].
  destruct Hyes as (_ & Hlossy & _ & Hspawn).
  { right. right. exists "/home/u/photo", ".PNG". split; reflexivity. }
  destruct (Hspawn _ _ Hphoto eq_refl Hdir eq_refl) as [Hcmd _].
  destruct Hno as [_ (Hgif & _)].
  { apply no_image_extension. reflexivity. }
  split; [exact Hlossy|]. split; [exact Hcmd | exact Hgif].
Defined.

(** C2, the claim fails on an input path that [path.resolve] rewrites:
    'a.png/.' has none of the three extensions, its resolved form
    '/home/u/a.png' has one, and the operation passes the format check,
    spawns ImageMagick and returns. *)
Lemma unsupported_input_path_accepted :
  let w := world_of (<["/home/u" := plain_file 4096]>
                      {["/home/u/a.png" := plain_file 512000]}) in
  let run := compressImageLossy home_resolve posix_dirname
               (tool_writes "/home/u/out.png" 122880) "a.png/." "out.png" None in
  ~ supported_image_extension "a.png/."
  /\ home_resolve "a.png/." = "/home/u/a.png"
  /\ spawned_by run w
     = ["magick " +:+ quoted "/home/u/a.png" +:+ " -quality 75 -strip "
        +:+ quoted "/home/u/out.png"]
  /\ result_of run w
     = Returned {| outputPath := "/home/u/out.png"; compressedSizeKB := 122880 # 1024 |}.
Proof.
  cbv zeta. split; [apply no_image_extension; reflexivity|].
  split; [reflexivity|]. split; vm_compute; reflexivity.
Qed.

(** C3, the claim fails on an input that does not exist: the existence
    check comes before the extension check, so the error is the one of
    [fs.access], not 'Input file must be an MP3.'. *)
Lemma compressMP3_missing_wav :
  let w := world_of ∅ in
  let run := compressMP3 home_resolve (tool_fails "ffmpeg: failed")
                         "song.wav" "out.mp3" AudioOptions.empty in
  endsWith (toLowerCase (home_resolve "song.wav")) ".mp3" = false
  /\ result_of run w = Thrown (FsError ENOENT "access" "/home/u/song.wav")
  /\ result_of run w <> Thrown not_an_mp3.
Proof. cbv zeta. split; [|split]; vm_compute; [reflexivity | reflexivity | discriminate]. Qed.

Lemma mp3_extension_check_witness :
  let w := world_of {["/home/u/song.wav" := plain_file 900000]} in
  compressMP3 home_resolve (tool_fails "ffmpeg: failed") "song.wav" "out.mp3"
              AudioOptions.empty w
  = (Thrown not_an_mp3, w).
Proof.
  cbv zeta.
  rewrite (mp3_extension_check home_resolve (tool_fails "ffmpeg: failed")
             "song.wav" "out.mp3" AudioOptions.empty
             (world_of {["/home/u/song.wav" := plain_file 900000]})
             (no_extension (home_resolve "song.wav") ".mp3" eq_refl)).
  vm_compute. reflexivity.
Defined.

(** C5, the claim fails for compressMP3: its [fs.access] has no mode, so
    an input that exists and cannot be read passes validation and FFmpeg
    is spawned on it. *)
Lemma compressMP3_unreadable_spawns :
  let w := world_of {["/home/u/song.mp3" := unreadable_file 4096]} in
  let run := compressMP3 home_resolve (tool_fails "ffmpeg: Permission denied")
                         "song.mp3" "out.mp3" AudioOptions.empty in
  w_fs w !! home_resolve "song.mp3" = Some (unreadable_file 4096)
  /\ n_readable (unreadable_file 4096) = false
  /\ spawned_by run w
     = ["ffmpeg -i " +:+ quoted "/home/u/song.mp3" +:+ " -c:a libmp3lame -q:a 4  -y "
        +:+ quoted "/home/u/out.mp3"]
  /\ result_of run w
     = Thrown (JsError "MP3 compression failed: ffmpeg: Permission denied").
Proof. cbv zeta. repeat split; vm_compute; reflexivity. Qed.

Lemma unreadable_input_check_witness :
  let w := world_of (<["/home/u/photo.jpg" := unreadable_file 512000]>
                      {["/home/u/song.mp3" := unreadable_file 4096]}) in
  let tool := tool_writes "/home/u/out" 1024 in
  result_of (compressImageLossy home_resolve posix_dirname tool
               "photo.jpg" "out" None) w
  = Thrown (FsError EACCES "access" "/home/u/photo.jpg")
  /\ spawned_by (compressMP3 home_resolve tool "song.mp3" "out" AudioOptions.empty) w
     = [mp3_ffmpegCommand "/home/u/song.mp3" "/home/u/out" AudioOptions.empty].
Proof.
  cbv zeta.
  set (w := world_of (<["/home/u/photo.jpg" := unreadable_file 512000]>
                        {["/home/u/song.mp3" := unreadable_file 4096]})).
  assert (Hphoto : w_fs w !! home_resolve "photo.jpg" = Some (unreadable_file 512000))
    by (vm_compute; reflexivity).
  assert (Hsong : w_fs w !! home_resolve "song.mp3" = Some (unreadable_file 4096))
    by (vm_compute; reflexivity).
  split.
  - destruct (unreadable_input_check home_resolve posix_dirname
                (tool_writes "/home/u/out" 1024) "photo.jpg" "out" None None
                AudioOptions.empty w (unreadable_file 512000) Hphoto eq_refl)
      as (Himage & _ & _).
    destruct Himage as [(Hr & _) _]; [|exact Hr].
    left. exists "/home/u/photo", ".jpg". split; reflexivity.
  - destruct (unreadable_input_check home_resolve posix_dirname
                (tool_writes "/home/u/out" 1024) "song.mp3" "out" None None
                AudioOptions.empty w (unreadable_file 4096) Hsong eq_refl)
      as (_ & _ & Hmp3).
    apply Hmp3. exists "/home/u/song", ".mp3". split; reflexivity.
Defined.

Lemma gif_command_fixed_witness :
  video_ffmpegCommand "/home/u/in.mp4" "/home/u/out.gif"
    (gif_options (Some 18) {| Scale.width := Some 1280; Scale.height := None |})
  = video_ffmpegCommand "/home/u/in.mp4" "/home/u/out.gif"
      {| VideoOptions.codec := Some SupportedCodecs.GIF; VideoOptions.crf := None;
         VideoOptions.preset := Some VideoPresets.SLOW; VideoOptions.fps := Some 30;
         VideoOptions.scale := None |}.
Proof.
  destruct (gif_command_fixed home_resolve (tool_fails "unused") "in.mp4" "out.gif"
              (gif_options (Some 18) {| Scale.width := Some 1280; Scale.height := None |})
              {| VideoOptions.codec := Some SupportedCodecs.GIF; VideoOptions.crf := None;
                 VideoOptions.preset := Some VideoPresets.SLOW;
                 VideoOptions.fps := Some 30; VideoOptions.scale := None |}
              eq_refl eq_refl) as (_ & Hsame & _).
  exact Hsame.
Defined.

(** C7, the claim fails with codec GIF: the height is given and the width
    is omitted, yet the scale filter of the command is the fixed
    [scale=640:-1], not [scale=-1:480]. *)
Lemma gif_ignores_scale :
  exists command,
    video_ffmpegCommand "/home/u/in.mp4" "/home/u/out.gif"
      (gif_options None {| Scale.width := None; Scale.height := Some 480 |})
    = inr command
    /\ contains "scale=-1:480" command = false
    /\ contains "scale=640:-1" command = true.
Proof. eexists. split; [reflexivity|]. split; vm_compute; reflexivity. Qed.

Lemma scale_filter_omitted_dimension_witness :
  exists flags,
    video_ffmpegCommand "/home/u/in.mp4" "/home/u/out.mp4"
      {| VideoOptions.codec := None; VideoOptions.crf := None;
         VideoOptions.preset := None; VideoOptions.fps := None;
         VideoOptions.scale := Some {| Scale.width := Some 1280; Scale.height := None |} |}
    = inr (video_head +:+ quoted "/home/u/in.mp4" +:+ flags
           +:+ quoted "/home/u/out.mp4" +:+ video_tail)
    /\ contains " -vf scale=1280:-1 " flags = true.
Proof.
  destruct (scale_filter_omitted_dimension "/home/u/in.mp4" "/home/u/out.mp4"
              {| VideoOptions.codec := None; VideoOptions.crf := None;
                 VideoOptions.preset := None; VideoOptions.fps := None;
                 VideoOptions.scale :=
                   Some {| Scale.width := Some 1280; Scale.height := None |} |}
              {| Scale.width := Some 1280; Scale.height := None |})
    as (flags & Hf & Hh & _).
  - discriminate.
  - reflexivity.
  - exists flags. split; [exact Hf | exact (Hh eq_refl)].
Defined.

(** C10, the claim fails with codec GIF: a crf of 0 and a width of 0 are
    supplied, and the command has no crf flag and keeps the fixed scale
    filter. *)
Lemma gif_ignores_crf :
  exists command,
    video_ffmpegCommand "/home/u/in.mp4" "/home/u/out.gif"
      (gif_options (Some 0) {| Scale.width := Some 0; Scale.height := Some 480 |})
    = inr command
    /\ contains "-crf" command = false
    /\ contains "scale=-1:480" command = false.
Proof. eexists. split; [reflexivity|]. split; vm_compute; reflexivity. Qed.

Lemma zero_crf_kept_zero_scale_replaced_witness :
  exists flags,
    video_ffmpegCommand "/home/u/in.mp4" "/home/u/out.webm"
      {| VideoOptions.codec := Some SupportedCodecs.VP9; VideoOptions.crf := Some 0;
         VideoOptions.preset := None; VideoOptions.fps := None;
         VideoOptions.scale := Some {| Scale.width := Some 0; Scale.height := Some 480 |} |}
    = inr (video_head +:+ quoted "/home/u/in.mp4" +:+ flags
           +:+ quoted "/home/u/out.webm" +:+ video_tail)
    /\ contains " -crf 0 " flags = true
    /\ contains " -vf scale=-1:480 " flags = true.
Proof.
  destruct (zero_crf_kept_zero_scale_replaced "/home/u/in.mp4" "/home/u/out.webm"
              {| VideoOptions.codec := Some SupportedCodecs.VP9;
                 VideoOptions.crf := Some 0; VideoOptions.preset := None;
                 VideoOptions.fps := None;
                 VideoOptions.scale :=
                   Some {| Scale.width := Some 0; Scale.height := Some 480 |} |})
    as (flags & Hf & Hcrf & Hscale).
  - discriminate.
  - exists flags. split; [exact Hf|]. split; [exact (Hcrf eq_refl)|].
    destruct (Hscale {| Scale.width := Some 0; Scale.height := Some 480 |} eq_refl)
      as [Hw _].
    exact (Hw eq_refl).
Defined.

Lemma result_size_and_path_witness :
  let w := world_of {["/home/u/input.pdf" := plain_file 512000]} in
  let tool := tool_writes "/home/u/output.pdf" 122880 in
  exists r w',
    compressPDF home_resolve tool "input.pdf" "output.pdf" w = (Returned r, w')
    /\ outputPath r = "/home/u/output.pdf"
    /\ (compressedSizeKB r == 120)%Q.
Proof.
  cbv zeta.
  set (w := world_of {["/home/u/input.pdf" := plain_file 512000]}).
  set (tool := tool_writes "/home/u/output.pdf" 122880).
  destruct (compressPDF home_resolve tool "input.pdf" "output.pdf" w) as [[r|e] w'] eqn:E.
  - exists r, w'. split; [reflexivity|].
    destruct (result_size_and_path home_resolve posix_dirname tool PDF
                "input.pdf" "output.pdf" w w' r E) as (Hp & n & Hn & Hs).
    split; [exact Hp|].
    vm_compute in E. injection E as <- <-. vm_compute in Hn. injection Hn as <-.
    rewrite Hs. reflexivity.
  - vm_compute in E. discriminate.
Defined.

(** ** The scenarios of the specification *)

(** compressImageLossy('photo.jpg', 'photo_small.jpg', 40) on a 500 KB
    source, with a tool that writes a 120 KB file. *)
Example lossy_scenario :
  let w := world_of (<["/home/u" := plain_file 4096]>
                      {["/home/u/photo.jpg" := plain_file 512000]}) in
  exists w',
    compressImageLossy home_resolve posix_dirname
      (tool_writes "/home/u/photo_small.jpg" 122880)
      "photo.jpg" "photo_small.jpg" (Some 40) w
    = (Returned {| outputPath := "/home/u/photo_small.jpg";
                   compressedSizeKB := 122880 # 1024 |}, w')
    /\ (122880 # 1024 == 120)%Q
    /\ w_spawned w'
       = ["magick " +:+ quoted "/home/u/photo.jpg" +:+ " -quality 40 -strip "
          +:+ quoted "/home/u/photo_small.jpg"].
Proof. cbv zeta. eexists. split; [vm_compute; reflexivity|]. split; reflexivity. Qed.

(** Every operation fails when its tool exits with a failure. *)
Example failing_tool_scenario :
  let w := world_of (<["/home/u" := plain_file 4096]>
                      (<["/home/u/a.png" := plain_file 10]>
                         (<["/home/u/a.mp3" := plain_file 10]>
                            {["/home/u/a.mp4" := plain_file 10]}))) in
  let tool := tool_fails "exit 1" in
  map (fun run : M CompressResult => result_of run w)
      [compressPDF home_resolve tool "a.pdf" "b.pdf";
       compressImageLossy home_resolve posix_dirname tool "a.png" "b.png" None;
       compressImageLossless home_resolve posix_dirname tool "a.png" "b.png" None;
       compressVideo home_resolve tool "a.mp4" "b.mp4" VideoOptions.empty;
       compressMP3 home_resolve tool "a.mp3" "b.mp3" AudioOptions.empty]
  = [Thrown (ExecError "exit 1");
     Thrown (JsError "Failed to compress image: exit 1");
     Thrown (JsError "Failed to compress image: exit 1");
     Thrown (JsError "Video compression failed: exit 1");
     Thrown (JsError "MP3 compression failed: exit 1")].
Proof. vm_compute. reflexivity. Qed.

(** compressMP3(input, output, { bitrate: '192k', quality: 5 }) *)
Example mp3_bitrate_scenario :
  mp3_ffmpegCommand "/home/u/in.mp3" "/home/u/out.mp3"
    {| AudioOptions.bitrate := Some SoundBitRate.HIGH;
       AudioOptions.quality := Some 5; AudioOptions.mono := None |}
  = "ffmpeg -i " +:+ quoted "/home/u/in.mp3" +:+ " -c:a libmp3lame -b:a 192k  -y "
    +:+ quoted "/home/u/out.mp3".
Proof. reflexivity. Qed.

(** compressVideo(input, output, { scale: { width: 1280 } }) *)
Example video_scale_scenario :
  video_ffmpegCommand "/home/u/in.mp4" "/home/u/out.mp4"
    {| VideoOptions.codec := None; VideoOptions.crf := None;
       VideoOptions.preset := None; VideoOptions.fps := None;
       VideoOptions.scale := Some {| Scale.width := Some 1280; Scale.height := None |} |}
  = inr (nl +:+ "        ffmpeg -i " +:+ quoted "/home/u/in.mp4"
         +:+ "         -c:v libx264 -crf 28 -preset medium"
         +:+ "         -c:a aac -b:a 128k"
         +:+ "          -vf scale=1280:-1"
         +:+ "         -movflags +faststart"
         +:+ "         " +:+ quoted "/home/u/out.mp4" +:+ nl +:+ "      ").
Proof. reflexivity. Qed.

(** A path with a blank stays between its two quotes. *)
Example blank_in_path_scenario :
  spawned_by (compressPDF home_resolve (tool_fails "exit 1") "my file.pdf" "out dir/o.pdf")
             (world_of ∅)
  = ["gs -sDEVICE=pdfwrite -dCompatibilityLevel=1.4 -dPDFSETTINGS=/screen -dNOPAUSE -dQUIET -dBATCH -sOutputFile="
     +:+ quoted "/home/u/out dir/o.pdf" +:+ " " +:+ quoted "/home/u/my file.pdf"].
Proof. vm_compute. reflexivity. Qed.

(** * The stages of an operation: validation, process, measurement *)

Section Stages.

Variable resolve : string -> string.
Variable dirname : string -> string.
Variable run_tool : string -> gmap string node -> option string * gmap string node.

Ltac stage_ops :=
  unfold run_operation, synthesized_command, validated, accessible, tool_failure,
    stat_failure, console_label in *;
  run_ops.

(** Case analysis on what validation reads: the extension tests and the
    nodes at the paths. *)
Ltac stage_atoms :=
  repeat match goal with
         | |- context [supportedFormats_test ?p] =>
             destruct (supportedFormats_test p) eqn:?
         | |- context [endsWith ?a ?b] => destruct (endsWith a b) eqn:?
         | |- context [w_fs ?w !! ?p] => destruct (w_fs w !! p) as [[[] [] ?]|] eqn:?
         end;
  cbn [andb negb n_readable n_writable n_size mode_allows fst snd w_fs w_spawned
       w_console] in *.

Ltac stage_cases := stage_ops; stage_atoms; split_run.

(** Every operation has a command for its resolved paths: the codecs of
    the enum are all handled by compressVideo. *)
Lemma synthesized_command_total (op : operation) (rin rout : string) :
  exists command, synthesized_command op rin rout = inr command.
Proof.
  destruct op as [|q|l|options|options]; cbn [synthesized_command]; eauto.
  unfold video_ffmpegCommand. destruct (video_codec options); cbn; eauto.
Qed.

(** X1. An operation spawns a process exactly when its validation passes,
    and then exactly one, with the command synthesized from the resolved
    paths. The file system is changed by that process only. *)
Theorem spawns_iff_validated (op : operation) (input output : string) (w : world) :
  let run := run_operation resolve dirname run_tool op input output in
  let ok := validated dirname op (resolve input) (resolve output) (w_fs w) in
  exists command,
    synthesized_command op (resolve input) (resolve output) = inr command
    /\ spawned_by run w
       = (if ok then w_spawned w ++ [command] else w_spawned w)%list
    /\ w_fs (snd (run w))
       = (if ok then snd (run_tool command (w_fs w)) else w_fs w).
Proof.
  cbv zeta.
  destruct (synthesized_command_total op (resolve input) (resolve output)) as (c & Hc).
  exists c. split; [exact Hc|].
  destruct op; stage_cases; auto.
Qed.

(** X2. An operation returns exactly when its validation passes, its
    process exits with status 0 and the output file exists afterwards. The
    result is then built from that file, the world holds the file system
    the process has left and one more spawned command, and nothing is
    written to the console. *)
Theorem operation_returns_iff (op : operation) (input output : string)
    (w w' : world) (r : CompressResult) :
  run_operation resolve dirname run_tool op input output w = (Returned r, w')
  <-> validated dirname op (resolve input) (resolve output) (w_fs w) = true
      /\ exists command fs' n,
           synthesized_command op (resolve input) (resolve output) = inr command
           /\ run_tool command (w_fs w) = (None, fs')
           /\ fs' !! resolve output = Some n
           /\ r = {| outputPath := resolve output;
                     compressedSizeKB := bytes_to_KB (n_size n) |}
           /\ w' = {| w_fs := fs'; w_spawned := (w_spawned w ++ [command])%list;
                      w_console := w_console w |}.
Proof.
  split.
  - intros H. destruct op; stage_cases; (split; [reflexivity|]);
      do 3 eexists; repeat split; eauto.
  - intros (Hv & command & fs' & n & Hc & Ht & Hn & -> & ->).
    destruct op; stage_cases; try discriminate; congruence.
Qed.

(** X3. When validation passes and the process fails, the operation
    throws: compressPDF the error of the process as it is, the image
    operations 'Failed to compress image: ' and compressVideo and
    compressMP3 their own prefix, each followed by the message of the
    process. The output path is not measured. *)
Theorem tool_failure_is_reported (op : operation) (input output : string)
    (w : world) (command msg : string) (fs' : gmap string node) :
  validated dirname op (resolve input) (resolve output) (w_fs w) = true ->
  synthesized_command op (resolve input) (resolve output) = inr command ->
  run_tool command (w_fs w) = (Some msg, fs') ->
  let run := run_operation resolve dirname run_tool op input output in
  result_of run w = Thrown (tool_failure op msg)
  /\ w_fs (snd (run w)) = fs'.
Proof.
  intros Hv Hc Ht. cbv zeta.
  destruct op; stage_cases; try discriminate; split; congruence.
Qed.

(** X4. When validation passes and the process exits with status 0 but
    no file is at the resolved output path, the operation throws the error
    of [fs.stat]: as it is from compressPDF and the image operations,
    wrapped in their prefix from compressVideo and compressMP3. *)
Theorem missing_output_is_reported (op : operation) (input output : string)
    (w : world) (command : string) (fs' : gmap string node) :
  validated dirname op (resolve input) (resolve output) (w_fs w) = true ->
  synthesized_command op (resolve input) (resolve output) = inr command ->
  run_tool command (w_fs w) = (None, fs') ->
  fs' !! resolve output = None ->
  result_of (run_operation resolve dirname run_tool op input output) w
  = Thrown (stat_failure op (resolve output)).
Proof.
  intros Hv Hc Ht Hn.
  destruct op; stage_cases; try discriminate; congruence.
Qed.

(** X5. compressVideo and compressMP3 never write to the console, and no
    operation writes when it returns. When compressPDF or an image
    operation throws, the last line it has written is its label with the
    error thrown; before it there is at most the line of the failed
    ImageMagick process. *)
Theorem console_lines (op : operation) (input output : string) (w : world) :
  let run := run_operation resolve dirname run_tool op input output in
  match result_of run w, console_label op with
  | Returned _, _ | Thrown _, None => w_console (snd (run w)) = w_console w
  | Thrown e, Some label =>
      exists earlier,
        w_console (snd (run w)) = (w_console w ++ earlier ++ [(label, e)])%list
        /\ (earlier = []
            \/ exists msg,
                 earlier = [("ImageMagick command failed:", ExecError msg)]
                 /\ e = JsError ("Failed to compress image: " +:+ msg))
  end.
Proof.
  cbv zeta. destruct op; stage_cases; try reflexivity;
    first [ exists []; split; [reflexivity | now left]
          | eexists [_]; split; [now rewrite <- app_assoc | right; eauto] ].
Qed.

(** X6. With a supported extension, the image operations check the input
    before the output directory: a missing input is the ENOENT error of
    the first [fs.access]; with a readable input, an output directory that
    is missing or not writable is the ENOENT or EACCES error of the second
    one, on the directory of the resolved output path. *)
Theorem image_permission_checks (input output : string)
    (quality compressionLevel : option Z) (w : world) :
  supportedFormats_test (resolve input) = true ->
  let lossy := run_operation resolve dirname run_tool (ImageLossy quality) input output in
  let lossless :=
    run_operation resolve dirname run_tool (ImageLossless compressionLevel) input output in
  let dir := dirname (resolve output) in
  (w_fs w !! resolve input = None ->
   result_of lossy w = Thrown (FsError ENOENT "access" (resolve input))
   /\ result_of lossless w = Thrown (FsError ENOENT "access" (resolve input)))
  /\ (accessible R_OK (w_fs w) (resolve input) = true ->
      accessible W_OK (w_fs w) dir = false ->
      let code := match w_fs w !! dir with Some _ => EACCES | None => ENOENT end in
      result_of lossy w = Thrown (FsError code "access" dir)
      /\ result_of lossless w = Thrown (FsError code "access" dir)).
Proof.
  intros Hs. cbv zeta. split.
  - intros Hn. stage_ops. rewrite Hs. run_simpl. rewrite Hn. auto.
  - stage_ops. rewrite Hs. run_simpl.
    destruct (w_fs w !! resolve input) as [[[] [] ?]|];
      cbn [mode_allows n_readable]; intros Hr; try discriminate; run_simpl;
      destruct (w_fs w !! dirname (resolve output)) as [[[] [] ?]|];
      cbn [mode_allows n_writable]; intros Hw; try discriminate; auto.
Qed.

End Stages.

(** * Options and flags *)

(** X7. Leaving out the codec, the crf or the preset of compressVideo is
    the same as passing libx264, 28 (30 with codec VP9) and medium: the
    command is the same, and so is the run. *)
Theorem video_defaults (resolve : string -> string)
    (run_tool : string -> gmap string node -> option string * gmap string node)
    (input output : string) (options : VideoOptions.t) :
  video_ffmpegCommand (resolve input) (resolve output) (with_defaults options)
  = video_ffmpegCommand (resolve input) (resolve output) options
  /\ forall w,
       compressVideo resolve run_tool input output (with_defaults options) w
       = compressVideo resolve run_tool input output options w.
Proof.
  assert (H : forall rin rout,
             video_ffmpegCommand rin rout (with_defaults options)
             = video_ffmpegCommand rin rout options).
  { intros. destruct options as [[[]|] [q|] [p|] f sc]; reflexivity. }
  split; [apply H|]. intros w. unfold compressVideo. now rewrite H.
Qed.

(** X8. With codec VP9 the preset does not reach the command: whatever
    preset is passed, the command and the run are those of the same
    options without it. *)
Theorem vp9_ignores_preset (resolve : string -> string)
    (run_tool : string -> gmap string node -> option string * gmap string node)
    (input output : string) (options : VideoOptions.t) (p : option VideoPresets.t) :
  VideoOptions.codec options = Some SupportedCodecs.VP9 ->
  video_ffmpegCommand (resolve input) (resolve output) (set_preset p options)
  = video_ffmpegCommand (resolve input) (resolve output) options
  /\ forall w,
       compressVideo resolve run_tool input output (set_preset p options) w
       = compressVideo resolve run_tool input output options w.
Proof.
  intros Hc.
  assert (H : forall rin rout,
             video_ffmpegCommand rin rout (set_preset p options)
             = video_ffmpegCommand rin rout options).
  { intros. destruct options as [c q p' f sc]. cbn in Hc. subst c. reflexivity. }
  split; [apply H|]. intros w. unfold compressVideo. now rewrite H.
Qed.

(** X9. An fps of 0 is the same as no fps: the command is the one of the
    options without it. In the H.264, H.265 and VP9 commands any other fps
    is written among the flags as '-r {fps}'. *)
Theorem video_fps_flag (rin rout : string) (options : VideoOptions.t) :
  (VideoOptions.fps options = Some 0 ->
   video_ffmpegCommand rin rout options
   = video_ffmpegCommand rin rout (set_fps None options))
  /\ (forall n,
        VideoOptions.fps options = Some n -> n <> 0 ->
        video_codec options <> SupportedCodecs.GIF ->
        exists flags,
          video_ffmpegCommand rin rout options
          = inr (video_head +:+ quoted rin +:+ flags +:+ quoted rout +:+ video_tail)
          /\ contains (indent8 +:+ "-r " +:+ Number_toString n +:+ " ") flags = true).
Proof.
  split.
  - intros H0. destruct options as [c q p f sc]. cbn in H0. subst f. reflexivity.
  - intros n Hn Hz Hc. unfold video_ffmpegCommand.
    assert (Hf : video_fps options = "-r " +:+ Number_toString n).
    { unfold video_fps. rewrite Hn. cbn [num_truthy nullish].
      destruct (Z.eqb_spec n 0); [contradiction | reflexivity]. }
    rewrite Hf. clear Hf.
    set (crf := Number_toString (video_crf options)).
    set (preset := VideoPresets.value (video_preset options)).
    set (scale := video_scale options). set (fps := Number_toString n).
    destruct (video_codec options) eqn:E; [| | |contradiction];
      cbn [SupportedCodecs.eqb SupportedCodecs.value String.eqb Ascii.eqb Bool.eqb orb].
    + exists (" " +:+ indent8 +:+ "-c:v libx264 -crf " +:+ crf +:+ " -preset " +:+ preset
              +:+ " " +:+ indent8 +:+ "-c:a aac -b:a 128k " +:+ indent8 +:+ "-r " +:+ fps
              +:+ " " +:+ scale +:+ " " +:+ indent8 +:+ "-movflags +faststart "
              +:+ indent8).
      split; [f_equal; assoc; reflexivity|].
      apply (contains_intro _ _ (" " +:+ indent8 +:+ "-c:v libx264 -crf " +:+ crf
                                 +:+ " -preset " +:+ preset +:+ " " +:+ indent8
                                 +:+ "-c:a aac -b:a 128k ")
               (scale +:+ " " +:+ indent8 +:+ "-movflags +faststart " +:+ indent8)).
      assoc. reflexivity.
    + exists (" " +:+ indent8 +:+ "-c:v libx265 -crf " +:+ crf +:+ " -preset " +:+ preset
              +:+ " " +:+ indent8 +:+ "-c:a aac -b:a 128k " +:+ indent8 +:+ "-r " +:+ fps
              +:+ " " +:+ scale +:+ " " +:+ indent8 +:+ "-movflags +faststart "
              +:+ indent8).
      split; [f_equal; assoc; reflexivity|].
      apply (contains_intro _ _ (" " +:+ indent8 +:+ "-c:v libx265 -crf " +:+ crf
                                 +:+ " -preset " +:+ preset +:+ " " +:+ indent8
                                 +:+ "-c:a aac -b:a 128k ")
               (scale +:+ " " +:+ indent8 +:+ "-movflags +faststart " +:+ indent8)).
      assoc. reflexivity.
    + exists (" " +:+ indent8 +:+ "-c:v libvpx-vp9 -crf " +:+ crf +:+ " -b:v 0 "
              +:+ indent8 +:+ "-c:a libopus -b:a 128k " +:+ indent8 +:+ "-r " +:+ fps
              +:+ " " +:+ scale +:+ " " +:+ indent8).
      split; [f_equal; assoc; reflexivity|].
      apply (contains_intro _ _ (" " +:+ indent8 +:+ "-c:v libvpx-vp9 -crf " +:+ crf
                                 +:+ " -b:v 0 " +:+ indent8 +:+ "-c:a libopus -b:a 128k ")
               (scale +:+ " " +:+ indent8)).
      assoc. reflexivity.
Qed.

(** X10. When compressMP3 is given a bitrate, the quality does not reach
    the command: whatever quality is passed, the command and the run are
    the same. *)
Theorem bitrate_ignores_quality (resolve : string -> string)
    (run_tool : string -> gmap string node -> option string * gmap string node)
    (input output : string) (options : AudioOptions.t) (b : SoundBitRate.t)
    (q : option Z) :
  AudioOptions.bitrate options = Some b ->
  mp3_ffmpegCommand (resolve input) (resolve output) (set_quality q options)
  = mp3_ffmpegCommand (resolve input) (resolve output) options
  /\ forall w,
       compressMP3 resolve run_tool input output (set_quality q options) w
       = compressMP3 resolve run_tool input output options w.
Proof.
  intros Hb.
  assert (H : forall rin rout,
             mp3_ffmpegCommand rin rout (set_quality q options)
             = mp3_ffmpegCommand rin rout options).
  { intros. unfold mp3_ffmpegCommand, set_quality. cbn. now rewrite Hb. }
  split; [apply H|]. intros w. unfold compressMP3. now rewrite H.
Qed.

(** X11. The mono option of compressMP3: false is the same as left out,
    and true puts '-ac 1' between the rate flag and '-y'. *)
Theorem mp3_mono_flag (rin rout : string) (options : AudioOptions.t) :
  mp3_ffmpegCommand rin rout (set_mono (Some false) options)
  = mp3_ffmpegCommand rin rout (set_mono None options)
  /\ mp3_ffmpegCommand rin rout (set_mono (Some true) options)
     = "ffmpeg -i " +:+ quoted rin +:+ " -c:a libmp3lame " +:+ rate_flag options
       +:+ " -ac 1 -y " +:+ quoted rout.
Proof.
  split; [reflexivity|].
  unfold mp3_ffmpegCommand, rate_flag, set_mono. cbn.
  destruct (AudioOptions.bitrate options), (AudioOptions.quality options);
    assoc; reflexivity.
Qed.

(** ** Concrete runs of the stages *)

Lemma tool_failure_is_reported_witness :
  let w := world_of (<["/home/u" := plain_file 4096]>
                      {["/home/u/photo.jpg" := plain_file 512000]}) in
  result_of (compressImageLossy home_resolve posix_dirname (tool_fails "magick: no decode delegate")
               "photo.jpg" "small.jpg" (Some 40)) w
  = Thrown (JsError "Failed to compress image: magick: no decode delegate").
Proof.
  cbv zeta.
  set (w := world_of (<["/home/u" := plain_file 4096]>
                        {["/home/u/photo.jpg" := plain_file 512000]})).
  assert (Hv : validated posix_dirname (ImageLossy (Some 40)) (home_resolve "photo.jpg")
                 (home_resolve "small.jpg") (w_fs w) = true)
    by (vm_compute; reflexivity).
  destruct (tool_failure_is_reported home_resolve posix_dirname
              (tool_fails "magick: no decode delegate") (ImageLossy (Some 40))
              "photo.jpg" "small.jpg" w _ "magick: no decode delegate" (w_fs w)
              Hv eq_refl eq_refl) as [Hr _].
  exact Hr.
Defined.

Lemma missing_output_is_reported_witness :
  let w := world_of {["/home/u/in.mp4" := plain_file 900000]} in
  result_of (compressVideo home_resolve (tool_writes "/home/u/elsewhere.mp4" 1024)
               "in.mp4" "out.mp4" VideoOptions.empty) w
  = Thrown (JsError ("Video compression failed: ENOENT: no such file or directory, stat "
                     +:+ "'/home/u/out.mp4'")).
Proof.
  cbv zeta.
  set (w := world_of {["/home/u/in.mp4" := plain_file 900000]}).
  assert (Hv : validated posix_dirname (Video VideoOptions.empty) (home_resolve "in.mp4")
                 (home_resolve "out.mp4") (w_fs w) = true)
    by (vm_compute; reflexivity).
  assert (Hn : <["/home/u/elsewhere.mp4" := plain_file 1024]> (w_fs w)
               !! home_resolve "out.mp4" = None)
    by (vm_compute; reflexivity).
  exact (missing_output_is_reported home_resolve posix_dirname
           (tool_writes "/home/u/elsewhere.mp4" 1024) (Video VideoOptions.empty)
           "in.mp4" "out.mp4" w _ _ Hv eq_refl eq_refl Hn).
Defined.

Lemma image_permission_checks_witness :
  let w := world_of (<["/home/u/photo.jpg" := plain_file 512000]>
                      {["/home/u/locked" := unreadable_file 4096]}) in
  let tool := tool_writes "/home/u/locked/small.jpg" 1024 in
  result_of (compressImageLossy home_resolve posix_dirname tool
               "photo.jpg" "locked/small.jpg" None) w
  = Thrown (FsError EACCES "access" "/home/u/locked")
  /\ result_of (compressImageLossless home_resolve posix_dirname tool
                  "photo.jpg" "nowhere/small.jpg" None) w
     = Thrown (FsError ENOENT "access" "/home/u/nowhere")
  /\ result_of (compressImageLossy home_resolve posix_dirname tool
                  "other.png" "small.png" None) w
     = Thrown (FsError ENOENT "access" "/home/u/other.png").
Proof.
  cbv zeta.
  set (w := world_of (<["/home/u/photo.jpg" := plain_file 512000]>
                        {["/home/u/locked" := unreadable_file 4096]})).
  set (tool := tool_writes "/home/u/locked/small.jpg" 1024).
  assert (Hr : accessible R_OK (w_fs w) (home_resolve "photo.jpg") = true)
    by (vm_compute; reflexivity).
  assert (Hlocked : accessible W_OK (w_fs w)
                      (posix_dirname (home_resolve "locked/small.jpg")) = false)
    by (vm_compute; reflexivity).
  assert (Hnowhere : accessible W_OK (w_fs w)
                       (posix_dirname (home_resolve "nowhere/small.jpg")) = false)
    by (vm_compute; reflexivity).
  assert (Hother : w_fs w !! home_resolve "other.png" = None)
    by (vm_compute; reflexivity).
  destruct (image_permission_checks home_resolve posix_dirname tool
              "photo.jpg" "locked/small.jpg" None None w eq_refl) as [_ H1].
  destruct (image_permission_checks home_resolve posix_dirname tool
              "photo.jpg" "nowhere/small.jpg" None None w eq_refl) as [_ H2].
  destruct (image_permission_checks home_resolve posix_dirname tool
              "other.png" "small.png" None None w eq_refl) as [H3 _].
  destruct (H1 Hr Hlocked) as [G1 _]. destruct (H2 Hr Hnowhere) as [_ G2].
  destruct (H3 Hother) as [G3 _].
  unfold run_operation in G1, G2, G3.
  split; [|split].
  - rewrite G1. vm_compute. reflexivity.
  - rewrite G2. vm_compute. reflexivity.
  - exact G3.
Defined.

Lemma vp9_ignores_preset_witness :
  video_ffmpegCommand "/home/u/in.mp4" "/home/u/out.webm"
    {| VideoOptions.codec := Some SupportedCodecs.VP9; VideoOptions.crf := Some 32;
       VideoOptions.preset := Some VideoPresets.VERYSLOW; VideoOptions.fps := None;
       VideoOptions.scale := None |}
  = video_ffmpegCommand "/home/u/in.mp4" "/home/u/out.webm"
      {| VideoOptions.codec := Some SupportedCodecs.VP9; VideoOptions.crf := Some 32;
         VideoOptions.preset := None; VideoOptions.fps := None;
         VideoOptions.scale := None |}.
Proof.
  destruct (vp9_ignores_preset home_resolve (tool_fails "unused") "in.mp4" "out.webm"
              {| VideoOptions.codec := Some SupportedCodecs.VP9;
                 VideoOptions.crf := Some 32; VideoOptions.preset := None;
                 VideoOptions.fps := None; VideoOptions.scale := None |}
              (Some VideoPresets.VERYSLOW) eq_refl) as [H _].
  exact H.
Defined.

Lemma video_fps_flag_witness :
  exists flags,
    video_ffmpegCommand "/home/u/in.mp4" "/home/u/out.mp4"
      (set_fps (Some 24) VideoOptions.empty)
    = inr (video_head +:+ quoted "/home/u/in.mp4" +:+ flags
           +:+ quoted "/home/u/out.mp4" +:+ video_tail)
    /\ contains "        -r 24 " flags = true.
Proof.
  destruct (video_fps_flag "/home/u/in.mp4" "/home/u/out.mp4"
              (set_fps (Some 24) VideoOptions.empty)) as [_ H].
  destruct (H 24 eq_refl) as (flags & Hf & Hc).
  - discriminate.
  - discriminate.
  - exists flags. split; [exact Hf | exact Hc].
Defined.

Lemma bitrate_ignores_quality_witness :
  mp3_ffmpegCommand "/home/u/in.mp3" "/home/u/out.mp3"
    {| AudioOptions.bitrate := Some SoundBitRate.HIGH; AudioOptions.quality := Some 9;
       AudioOptions.mono := None |}
  = mp3_ffmpegCommand "/home/u/in.mp3" "/home/u/out.mp3"
      {| AudioOptions.bitrate := Some SoundBitRate.HIGH; AudioOptions.quality := None;
         AudioOptions.mono := None |}.
Proof.
  destruct (bitrate_ignores_quality home_resolve (tool_fails "unused")
              "in.mp3" "out.mp3"
              {| AudioOptions.bitrate := Some SoundBitRate.HIGH;
                 AudioOptions.quality := None; AudioOptions.mono := None |}
              SoundBitRate.HIGH (Some 9) eq_refl) as [H _].
  exact H.
Defined.

(** X12. For every codec of the enum, given or left to the default,
    compressVideo synthesizes a command: the branch that throws
    'Unsupported codec' is not taken. The command opens with 'ffmpeg -i'
    and the quoted input and closes with the quoted output. *)
Theorem video_codec_always_supported (rin rout : string) (options : VideoOptions.t) :
  video_ffmpegCommand rin rout options <> inl (JsError "Unsupported codec")
  /\ exists flags,
       video_ffmpegCommand rin rout options
       = inr (video_head +:+ quoted rin +:+ flags +:+ quoted rout +:+ video_tail).
Proof.
  split.
  - unfold video_ffmpegCommand. destruct (video_codec options); cbn; discriminate.
  - destruct (SupportedCodecs.eqb (video_codec options) SupportedCodecs.GIF) eqn:E.
    + exists (" " +:+ indent8 +:+ "-vf " +:+ quoted gif_filter +:+ " " +:+ indent8
              +:+ "-loop 0 " +:+ indent8).
      unfold video_ffmpegCommand. destruct (video_codec options); try discriminate.
      cbn [SupportedCodecs.eqb SupportedCodecs.value String.eqb Ascii.eqb Bool.eqb orb].
      f_equal. unfold gif_filter. assoc. reflexivity.
    + destruct (video_command_flags rin rout options) as (flags & Hf & _).
      * intros Hc. rewrite Hc in E. discriminate.
      * now exists flags.
Qed.

(** ** Paths that hold a double quote *)


